(** * Adaptive geohash nearby search: a shallow embedding and its properties

    The development follows [adaptive_geohash_sql.py]:

    - [distance]: great-circle distance between two coordinates;
    - [get_geohash_where_clause]: SQL predicate built from the bounding
      ranges of the geohash expansion;
    - [adaptive_geohash_nearby_search]: the adaptive precision loop followed
      by the fetch, the sort by distance and the slice.

    Python integers are [Z].  Python floats are idealised: the yield ratio
    of the precision loop, which only uses a division and comparisons, is
    an exact rational ([Q]), so that the loop can be evaluated; the distance,
    which needs [sin], [cos], [sqrt] and [atan2], is a real number ([R]).
    The geohash library and the database connection are collaborators and
    appear as the interfaces [Geohash] and [Database]; the database is a
    state machine of an arbitrary state type, so that its answers may depend
    on the whole history of the calls.  The list [select_cols] is an address
    in a store of list objects, which the call mutates in place. *)

From Stdlib Require Import ZArith List String Bool Lia QArith Reals Lra.
From Stdlib Require Import DecimalString Permutation Sorted.
From stdpp Require Import gmap.
Import ListNotations.

Open Scope string_scope.
Open Scope Z_scope.

(** ** Python values *)

(** The values a caller may pass for the four checked parameters. *)
Inductive pyval : Type :=
| VInt (z : Z)
| VFloat (x : R)
| VStr (s : string)
| VNone.

(** [isinstance(v, int)] *)
Definition isinstance_int (v : pyval) : bool :=
  match v with VInt _ => true | _ => false end.

(** [isinstance(v, (int, float))] *)
Definition isinstance_int_float (v : pyval) : bool :=
  match v with VInt _ | VFloat _ => true | _ => false end.

(** [str(z)] for an integer: decimal digits, with a leading minus sign. *)
Definition str (z : Z) : string := NilZero.string_of_int (Z.to_int z).

(** Python list slicing [l[i:j]]: a negative index counts from the end, and
    both indices are clamped to the list. *)
Definition slice_index (n i : Z) : Z :=
  if i <? 0 then Z.max 0 (i + n) else Z.min i n.

Definition py_slice {A : Type} (l : list A) (i j : Z) : list A :=
  let n := Z.of_nat (length l) in
  let a := slice_index n i in
  let b := slice_index n j in
  firstn (Z.to_nat (b - a)) (skipn (Z.to_nat a) l).

(** ** Distance calculator *)

Section Distance.
Local Open Scope R_scope.

Definition EQUATORIAL_R : R := 6367445 / 1000.

(** [math.radians] *)
Definition radians (x : R) : R := x * (PI / 180).

Definition Reqb (x y : R) : bool := if Req_dec_T x y then true else false.
Definition Rltb (x y : R) : bool := if Rlt_dec x y then true else false.

(** [math.atan2], from the arc tangent. *)
Definition atan2 (y x : R) : R :=
  if Rltb 0 x then atan (y / x)
  else if Rltb x 0 then
    if Rltb y 0 then atan (y / x) - PI else atan (y / x) + PI
  else if Rltb 0 y then PI / 2
  else if Rltb y 0 then - (PI / 2)
  else 0.

Definition distance (lat1 long1 lat2 long2 : R) : R :=
  if Reqb lat1 lat2 && Reqb long1 long2 then 0
  else
    let dlong := radians (long1 - long2) in
    let dlat := radians (lat1 - lat2) in
    let a := sin (dlat / 2) * sin (dlat / 2)
             + cos (radians lat1) * cos (radians lat2)
               * sin (dlong / 2) * sin (dlong / 2) in
    let b := 2 * atan2 (sqrt a) (sqrt (1 - a)) in
    EQUATORIAL_R * b * 1.

End Distance.

(** ** Predicate builder *)

(** A bounding range of the geohash expansion: a pair of optional bounds. *)
Definition bound_range : Type := (option Z * option Z)%type.

(** Truth value of a bound in a Python condition: [None] and [0] are false. *)
Definition truthy (b : option Z) : bool :=
  match b with
  | Some z => negb (z =? 0)
  | None => false
  end.

Definition bound_value (b : option Z) : Z :=
  match b with Some z => z | None => 0 end.

(** One turn of the [for] loop of [get_geohash_where_clause]. *)
Definition append_sub_clause (geoint_col_name : string)
    (sub_clauses : list string) (r : bound_range) : list string :=
  if truthy (fst r) && truthy (snd r) then
    app sub_clauses ["(" ++ geoint_col_name ++ ">=" ++ str (bound_value (fst r))
                       ++ " AND " ++ geoint_col_name ++ "<"
                       ++ str (bound_value (snd r)) ++ ")"]
  else if truthy (fst r) then
    app sub_clauses ["(" ++ geoint_col_name ++ ">=" ++ str (bound_value (fst r))
                       ++ ")"]
  else if truthy (snd r) then
    app sub_clauses ["(" ++ geoint_col_name ++ "<" ++ str (bound_value (snd r))
                       ++ ")"]
  else sub_clauses.

(** The body of [get_geohash_where_clause] once the ranges are known. *)
Definition where_clause_of_ranges (geoint_col_name : string)
    (ranges : list bound_range) : string :=
  let sub_clauses := fold_left (append_sub_clause geoint_col_name) ranges [] in
  if (length sub_clauses =? 0)%nat then ""
  else "(" ++ String.concat " OR " sub_clauses ++ ")".

(** The predicate builder as the specification words it, for a given reading
    [present] of "the bound is present".  *)
Section PredicateSpec.
Variable present : option Z -> bool.

Definition range_clause (column : string) (r : bound_range) : list string :=
  match present (fst r), present (snd r) with
  | true, true =>
      ["(" ++ column ++ ">=" ++ str (bound_value (fst r)) ++ " AND "
           ++ column ++ "<" ++ str (bound_value (snd r)) ++ ")"]
  | true, false => ["(" ++ column ++ ">=" ++ str (bound_value (fst r)) ++ ")"]
  | false, true => ["(" ++ column ++ "<" ++ str (bound_value (snd r)) ++ ")"]
  | false, false => []
  end.

Definition emitted_clauses (column : string) (ranges : list bound_range)
  : list string :=
  flat_map (range_clause column) ranges.

Definition build_predicate (column : string) (ranges : list bound_range)
  : string :=
  match emitted_clauses column ranges with
  | [] => ""
  | clauses => "(" ++ String.concat " OR " clauses ++ ")"
  end.

End PredicateSpec.

(** A bound is present when it is not [None]. *)
Definition bound_given (b : option Z) : bool :=
  match b with Some _ => true | None => false end.

(** ** Collaborators *)

(** A table column; the search only reads its name and compares columns. *)
Record Column : Type := { name : string }.

#[global] Instance Column_eq_dec : EqDecision Column.
Proof. solve_decision. Defined.

(** The geohash library. *)
Class Geohash : Type := {
  encode_uint64 : R -> R -> Z;
  expand_uint64 : Z -> Z -> list bound_range
}.

(** The database connection.  [DB] is the state of the connection and of the
    data behind it; a query returns its answer and the next state. *)
Class Database : Type := {
  DB : Type;
  Row : Type;
  row_value : Row -> Column -> R;
  count_query : DB -> Column -> string -> Z * DB;
  fetch_query : DB -> list Column -> string -> list Row * DB
}.

(** The queries a call issues, in order. *)
Inductive Query : Type :=
| QCount (count_col : Column) (whereclause : string)
| QFetch (select_cols : list Column) (whereclause : string).

Definition is_count (q : Query) : bool :=
  match q with QCount _ _ => true | QFetch _ _ => false end.

Definition is_fetch (q : Query) : bool :=
  match q with QFetch _ _ => true | QCount _ _ => false end.

Definition count_queries (qs : list Query) : nat :=
  length (List.filter is_count qs).
Definition fetch_queries (qs : list Query) : nat :=
  length (List.filter is_fetch qs).

(** The Python list objects of the caller, by address.  [select_cols] is
    passed by reference: the callee and the caller see the same object. *)
Definition loc : Type := positive.

Definition list_contents (h : gmap loc (list Column)) (l : loc) : list Column :=
  default [] (h !! l).

(** [l.append(c)] *)
Definition list_append (h : gmap loc (list Column)) (l : loc) (c : Column)
  : gmap loc (list Column) :=
  <[l := app (list_contents h l) [c]]> h.

(** [c in l] *)
Definition list_in (h : gmap loc (list Column)) (c : Column) (l : loc) : bool :=
  bool_decide (c ∈ list_contents h l).

(** ** Predicate builder, on the geohash expansion *)

Definition get_geohash_where_clause `{Geohash} (coord_geoint precision : Z)
    (geoint_col_name : string) : string :=
  where_clause_of_ranges geoint_col_name (expand_uint64 coord_geoint precision).

(** ** Adaptive precision controller *)

Definition MAX_DB_HITS : Z := 20.

(** The local variables of the search loop. *)
Record SearchState : Type := mkState {
  precision : Z;
  previous_precision : Z;
  previous_result_size : Z;
  previous_where_clause : string;
  where_clause : string;
  stop : bool;
  fall_back : bool;
  loop_count : Z
}.

Definition initial_state : SearchState :=
  {| precision := 50;
     previous_precision := 50;
     previous_result_size := 0;
     previous_where_clause := "";
     where_clause := "";
     stop := false;
     fall_back := false;
     loop_count := 0 |}.

(** The condition of the [while]. *)
Definition running (s : SearchState) : bool :=
  negb (stop s) && negb (fall_back s).

Definition Qlt_bool (x y : Q) : bool := negb (Qle_bool y x).

(** [float(z)] *)
Definition float (z : Z) : Q := inject_Z z.

(** Lines 135 to 171: the new precision from the yield of the last count. *)
Definition adjust_precision (precision result_size max_result_cap : Z) : Z :=
  let percent_returned := (float result_size / float max_result_cap)%Q in
  let precision :=
    if Qeq_bool percent_returned 0
       && Qlt_bool (1 / float max_result_cap) (5 # 100) then
      if precision <=? 4 then precision - 1
      else Z.max 4 (precision - 8)
    else if Qeq_bool percent_returned 0
            && Qle_bool (5 # 100) (1 / float max_result_cap) then
      if precision <=? 4 then precision - 1
      else Z.max 4 (precision - 7)
    else if Qle_bool percent_returned (5 # 100) then
      if precision <=? 4 then precision - 1
      else Z.max 4 (precision - 6)
    else if Qlt_bool percent_returned (25 # 100) then
      if precision <=? 4 then precision - 1
      else Z.max 4 (precision - 4)
    else if Qlt_bool percent_returned (5 # 10) then
      if precision <=? 3 then precision - 1
      else Z.max 3 (precision - 2)
    else precision - 1 in
  Z.max 0 precision.

Section Controller.
Context `{Geohash} `{Database}.

(** The connection and the queries issued on it so far. *)
Record World : Type := mkWorld {
  conn : DB;
  queries : list Query
}.

(** [db_conn.execute(select(columns=[func.count(count_col)],
    whereclause=where_clause)).first()[0]] *)
Definition execute_count (w : World) (count_col : Column) (whereclause : string)
  : Z * World :=
  let (n, c) := count_query (conn w) count_col whereclause in
  (n, {| conn := c; queries := app (queries w) [QCount count_col whereclause] |}).

(** [db_conn.execute(select(columns=select_cols,
    whereclause=where_clause)).fetchall()] *)
Definition execute_fetch (w : World) (select_cols : list Column)
    (whereclause : string) : list Row * World :=
  let (rows, c) := fetch_query (conn w) select_cols whereclause in
  (rows, {| conn := c;
            queries := app (queries w) [QFetch select_cols whereclause] |}).

Variables (coord_geoint max_result_cap : Z).
Variables (count_col geoint_col : Column) (custom_where_clause : string).

(** The predicate of the count query of a turn: lines 108, 114 and 115. *)
Definition turn_predicate (s : SearchState) : string :=
  let wc := get_geohash_where_clause coord_geoint (precision s)
                                     (name geoint_col) in
  if (0 <? String.length custom_where_clause)%nat
  then wc ++ custom_where_clause else wc.

(** One turn of the [while] loop, lines 108 to 171. *)
Definition loop_body (s : SearchState) (w : World) : SearchState * World :=
  let where_clause0 :=
    get_geohash_where_clause coord_geoint (precision s) (name geoint_col) in
  if (String.length where_clause0 =? 0)%nat then
    ({| precision := precision s;
        previous_precision := previous_precision s;
        previous_result_size := previous_result_size s;
        previous_where_clause := previous_where_clause s;
        where_clause := where_clause0;
        stop := true;
        fall_back := true;
        loop_count := loop_count s |}, w)
  else
    let where_clause1 :=
      if (0 <? String.length custom_where_clause)%nat
      then where_clause0 ++ custom_where_clause else where_clause0 in
    let (result_size, w1) := execute_count w count_col where_clause1 in
    let loop_count1 := loop_count s + 1 in
    let regressed := result_size <? previous_result_size s in
    let where_clause2 :=
      if regressed then previous_where_clause s else where_clause1 in
    let stop1 := if regressed then true else stop s in
    let previous_result_size1 :=
      if regressed then previous_result_size s else result_size in
    let previous_precision1 :=
      if regressed then previous_precision s else precision s in
    let previous_where_clause1 :=
      if regressed then previous_where_clause s else where_clause1 in
    let stop2 := if max_result_cap <=? result_size then true else stop1 in
    if (result_size <? max_result_cap) && (MAX_DB_HITS <=? loop_count1) then
      ({| precision := precision s;
          previous_precision := previous_precision1;
          previous_result_size := previous_result_size1;
          previous_where_clause := previous_where_clause1;
          where_clause := where_clause2;
          stop := true;
          fall_back := true;
          loop_count := loop_count1 |}, w1)
    else
      ({| precision := adjust_precision (precision s) result_size max_result_cap;
          previous_precision := previous_precision1;
          previous_result_size := previous_result_size1;
          previous_where_clause := previous_where_clause1;
          where_clause := where_clause2;
          stop := stop2;
          fall_back := fall_back s;
          loop_count := loop_count1 |}, w1).

(** The [while] loop.  [None] means that the fuel ran out before the loop
    condition became false. *)
Fixpoint while_loop (fuel : nat) (s : SearchState) (w : World)
  : option (SearchState * World) :=
  if running s then
    match fuel with
    | O => None
    | S fuel' => let (s', w') := loop_body s w in while_loop fuel' s' w'
    end
  else Some (s, w).

(** The state at the head of the loop after at most [n] turns. *)
Fixpoint iterate (n : nat) (s : SearchState) (w : World) : SearchState * World :=
  match n with
  | O => (s, w)
  | S n' =>
      if running s then let (s', w') := loop_body s w in iterate n' s' w'
      else (s, w)
  end.

End Controller.

(** What holds of the loop variables and of the queries issued, at the head
    of the loop and when it is left. *)
Definition loop_invariant `{Geohash} `{Database} (s : SearchState) (w : World)
  : Prop :=
  0 <= loop_count s <= MAX_DB_HITS
  /\ (running s = true -> loop_count s < MAX_DB_HITS)
  /\ Z.of_nat (count_queries (queries w)) = loop_count s
  /\ fetch_queries (queries w) = 0%nat.

(** ** Result materializer and the search itself *)

Section Search.
Context `{Geohash} `{Database}.

(** [sorted(sorted_list, key=lambda sort_elem : sort_elem[1])]: Python's sort
    is stable, and every stable sort returns the same list; it is modelled by
    insertion, an element going before the first one whose key is not
    smaller than its own. *)
Fixpoint insert_by_key (x : Row * R) (l : list (Row * R)) : list (Row * R) :=
  match l with
  | [] => [x]
  | y :: l' => if Rltb (snd y) (snd x) then y :: insert_by_key x l' else x :: l
  end.

Definition sorted_by_key (l : list (Row * R)) : list (Row * R) :=
  fold_right insert_by_key [] l.

(** The distance of a row to the point, line 178. *)
Definition row_distance (latitude longitude : R) (lat_col lon_col : Column)
    (row : Row) : R :=
  distance latitude longitude (row_value row lat_col) (row_value row lon_col).

(** Lines 176 to 178: every row with its distance to the point. *)
Definition scored (latitude longitude : R) (lat_col lon_col : Column)
    (data : list Row) : list (Row * R) :=
  map (fun row => (row, row_distance latitude longitude lat_col lon_col row))
      data.

(** Lines 176 to 181, without the slice: the rows in the order of their
    distances. *)
Definition ranked_rows (latitude longitude : R) (lat_col lon_col : Column)
    (data : list Row) : list Row :=
  map fst (sorted_by_key (scored latitude longitude lat_col lon_col data)).

(** Lines 176 to 181. *)
Definition materialize (latitude longitude : R) (lower_cut upper_cut : Z)
    (lat_col lon_col : Column) (data : list Row) : list Row :=
  py_slice (ranked_rows latitude longitude lat_col lon_col data)
           lower_cut upper_cut.

(** Lines 94 to 183, for arguments of the expected types.  [cols] is the
    contents of [select_cols] after lines 90 to 93.  The result is [None]
    when the fuel does not suffice for the loop; otherwise it is the value
    returned ([None] for the fallback) and the final connection and queries. *)
Definition search (fuel : nat) (latitude longitude : R) (lower_cut upper_cut : Z)
    (cols : list Column) (count_col lat_col lon_col geoint_col : Column)
    (custom_where_clause : string) (db_conn : DB)
  : option (option (list Row) * World) :=
  let max_result_cap := Z.max upper_cut 20 in
  let coord_geoint := encode_uint64 latitude longitude in
  match while_loop coord_geoint max_result_cap count_col geoint_col
                   custom_where_clause fuel initial_state
                   {| conn := db_conn; queries := [] |} with
  | None => None
  | Some (s, w) =>
      if negb (fall_back s) then
        let (data, w') := execute_fetch w cols (where_clause s) in
        Some (Some (materialize latitude longitude lower_cut upper_cut
                                lat_col lon_col data), w')
      else Some (None, w)
  end.

(** What a call does. *)
Inductive Outcome : Type :=
| Raised_InvalidParamException
    (* line 89; nothing was mutated and no query was issued *)
| Unmodelled (heap_after : gmap loc (list Column))
    (* an argument of an unexpected type passed line 88 and lines 90 to 93
       ran; what Python does with it afterwards, which is in most cases an
       error of the interpreter or of a collaborator, is not modelled *)
| Returned (value : option (list Row)) (heap_after : gmap loc (list Column))
    (db_after : DB) (issued : list Query).

(** The condition of line 88. *)
Definition param_check_fails (latitude longitude lower_cut upper_cut : pyval)
  : bool :=
  negb (isinstance_int_float latitude
        || negb (isinstance_int_float longitude)
        || negb (isinstance_int lower_cut)
        || negb (isinstance_int upper_cut)).

Definition as_number (v : pyval) : option R :=
  match v with
  | VInt z => Some (IZR z)
  | VFloat x => Some x
  | _ => None
  end.

Definition as_int (v : pyval) : option Z :=
  match v with VInt z => Some z | _ => None end.

(** The four checked arguments have the expected types, and these are
    their values. *)
Definition typed_args (latitude longitude lower_cut upper_cut : pyval)
    (lat lon : R) (lc uc : Z) : Prop :=
  as_number latitude = Some lat /\ as_number longitude = Some lon
  /\ as_int lower_cut = Some lc /\ as_int upper_cut = Some uc.

(** Lines 90 to 93. *)
Definition add_coordinate_columns (h : gmap loc (list Column))
    (select_cols : loc) (lat_col lon_col : Column) : gmap loc (list Column) :=
  let h1 := if negb (list_in h lat_col select_cols)
            then list_append h select_cols lat_col else h in
  if negb (list_in h1 lon_col select_cols)
  then list_append h1 select_cols lon_col else h1.

Definition adaptive_geohash_nearby_search (fuel : nat)
    (latitude longitude lower_cut upper_cut : pyval) (select_cols : loc)
    (count_col lat_col lon_col geoint_col : Column)
    (custom_where_clause : string) (db_conn : DB)
    (h : gmap loc (list Column)) : option Outcome :=
  if param_check_fails latitude longitude lower_cut upper_cut then
    Some Raised_InvalidParamException
  else
    let h' := add_coordinate_columns h select_cols lat_col lon_col in
    match as_number latitude, as_number longitude,
          as_int lower_cut, as_int upper_cut with
    | Some lat, Some lon, Some lc, Some uc =>
        match search fuel lat lon lc uc (list_contents h' select_cols)
                     count_col lat_col lon_col geoint_col
                     custom_where_clause db_conn with
        | None => None
        | Some (value, w) => Some (Returned value h' (conn w) (queries w))
        end
    | _, _, _, _ => Some (Unmodelled h')
    end.

End Search.

(** ** The yield table of the specification *)

(** A row of the table: whether the band applies, the step and the floor. *)
Record table_row : Type := { applies : bool; step : Z; floor : Z }.

Definition yield_table (percentReturned : Q) (maxResultCap : Z)
  : list table_row :=
  [ {| applies := Qeq_bool percentReturned 0
                  && Qlt_bool (1 / inject_Z maxResultCap) (5 # 100);
       step := 8; floor := 4 |};
    {| applies := Qeq_bool percentReturned 0
                  && Qle_bool (5 # 100) (1 / inject_Z maxResultCap);
       step := 7; floor := 4 |};
    {| applies := Qle_bool percentReturned (5 # 100); step := 6; floor := 4 |};
    {| applies := Qlt_bool percentReturned (25 # 100); step := 4; floor := 4 |};
    {| applies := Qlt_bool percentReturned (5 # 10); step := 2; floor := 3 |} ].

(** The first row that applies decides; when none does the ratio is at least
    one half and the step is one.  A precision already at the floor of its
    row steps by one.  The result is clamped to zero. *)
Definition table_precision (precision count maxResultCap : Z) : Z :=
  let percentReturned := (inject_Z count / inject_Z maxResultCap)%Q in
  Z.max 0
    (match find applies (yield_table percentReturned maxResultCap) with
     | Some row =>
         if precision <=? floor row then precision - 1
         else Z.max (floor row) (precision - step row)
     | None => precision - 1
     end).

(** A step down to a floor: a precision already at the floor steps by one. *)
Definition step_with_floor (precision step floor : Z) : Z :=
  if precision <=? floor then precision - 1 else Z.max floor (precision - step).

(** ** Collaborators of the examples *)

(** A geohash library whose expansion is one fixed range, and nothing at a
    precision of two bits or less. *)
Definition ring_geohash : Geohash :=
  {| encode_uint64 := fun _ _ => 1024;
     expand_uint64 := fun _ p => if p <=? 2 then [] else [(Some 16, Some 32)] |}.

(** A geohash library whose expansion is always empty. *)
Definition empty_geohash : Geohash :=
  {| encode_uint64 := fun _ _ => 1024;
     expand_uint64 := fun _ _ => [] |}.

(** A database that answers the count queries from a script (and with zero
    once the script is over) and every fetch with the same rows.  A row is
    an integer, which is also its latitude and its longitude. *)
Definition scripted_db : Database :=
  {| DB := list Z * list Z;
     Row := Z;
     row_value := fun r _ => IZR r;
     count_query := fun db _ _ => (hd 0 (fst db), (tl (fst db), snd db));
     fetch_query := fun db _ _ => (snd db, db) |}.

(** The state of [scripted_db] with the answers [script] still to give and
    the rows [rows]. *)
Definition scripted (script rows : list Z) : @DB scripted_db := (script, rows).

(** A row and rows of [scripted_db]. *)
Definition scripted_row (z : Z) : @Row scripted_db := z.
Definition scripted_rows (rows : list Z) : list (@Row scripted_db) := rows.

Definition col_id : Column := {| name := "id" |}.
Definition col_lat : Column := {| name := "lat" |}.
Definition col_lon : Column := {| name := "lon" |}.
Definition col_geo : Column := {| name := "geo" |}.

(** ** Further definitions *)

(** A count query of the search loop: the predicate of the expansion at a
    precision between 0 and 50, not empty, followed by the caller's
    fragment, counted on [count_col]. *)
Definition probe `{Geohash} (coord_geoint : Z) (count_col geoint_col : Column)
    (custom_where_clause : string) (q : Query) : Prop :=
  exists p : Z,
    0 <= p <= 50
    /\ get_geohash_where_clause coord_geoint p (name geoint_col) <> ""
    /\ q = QCount count_col
             (get_geohash_where_clause coord_geoint p (name geoint_col)
              ++ custom_where_clause).

(** What the loop keeps besides [loop_invariant]: the range of the
    precision, the form of the queries, and where the recorded predicate
    comes from. *)
Definition run_invariant `{Geohash} `{Database} (coord_geoint : Z)
    (count_col geoint_col : Column) (custom_where_clause : string)
    (s : SearchState) (w : World) : Prop :=
  0 <= precision s <= 50
  /\ 0 <= loop_count s
  /\ (fall_back s = false -> precision s <= Z.max 0 (50 - loop_count s))
  /\ Forall (probe coord_geoint count_col geoint_col custom_where_clause)
            (queries w)
  /\ (stop s = true -> fall_back s = true \/ 1 <= loop_count s)
  /\ ((previous_where_clause s = "" /\ previous_result_size s = 0)
      \/ In (QCount count_col (previous_where_clause s)) (queries w)).

(** A geohash library whose expansion is never empty. *)
Definition wide_geohash : Geohash :=
  {| encode_uint64 := fun _ _ => 1024;
     expand_uint64 := fun _ _ => [(Some 16, Some 32)] |}.

(** A database that answers every count query with [k] and every fetch with
    [rows]. *)
Definition steady_db (k : Z) (rows : list Z) : Database :=
  {| DB := unit;
     Row := Z;
     row_value := fun r _ => IZR r;
     count_query := fun _ _ _ => (k, tt);
     fetch_query := fun _ _ _ => (rows, tt) |}.

(** * Properties *)

(** ** Predicate builder *)

Lemma fold_left_append_sub_clause (column : string) (ranges : list bound_range)
    (acc : list string) :
  fold_left (append_sub_clause column) ranges acc
  = app acc (emitted_clauses truthy column ranges).
Proof.
  revert acc; induction ranges as [|r ranges IH]; intros acc; simpl.
  - now rewrite app_nil_r.
  - rewrite IH. unfold append_sub_clause, range_clause.
    destruct (truthy (fst r)), (truthy (snd r)); simpl;
      now rewrite <- ?app_assoc.
Qed.

Lemma where_clause_of_ranges_spec (column : string) (ranges : list bound_range) :
  where_clause_of_ranges column ranges = build_predicate truthy column ranges.
Proof.
  unfold where_clause_of_ranges, build_predicate.
  rewrite fold_left_append_sub_clause; simpl.
  now destruct (emitted_clauses truthy column ranges).
Qed.

(** C6, as stated, fails: a bound that is given but zero is skipped by the
    truth test of the code. *)
Lemma zero_bound_is_skipped :
  where_clause_of_ranges "geo" [(Some 0, Some 5)] = "((geo<5))"
  /\ build_predicate bound_given "geo" [(Some 0, Some 5)]
     = "((geo>=0 AND geo<5))"
  /\ where_clause_of_ranges "geo" [(Some 0, Some 5)]
     <> build_predicate bound_given "geo" [(Some 0, Some 5)].
Proof. repeat split; vm_compute; congruence. Qed.

(** C6, amended: with "present" read as "neither [None] nor zero", the
    predicate builder emits for each range the clause of the bounds that are
    present ([range_clause]), joins the emitted clauses with [OR], and returns
    the empty string exactly when no clause is emitted. *)
Theorem where_clause_of_ranges_correct (column : string)
    (ranges : list bound_range) :
  where_clause_of_ranges column ranges
  = match flat_map (range_clause truthy column) ranges with
    | [] => ""
    | clauses => "(" ++ String.concat " OR " clauses ++ ")"
    end
  /\ (where_clause_of_ranges column ranges = ""
      <-> flat_map (range_clause truthy column) ranges = []).
Proof.
  rewrite where_clause_of_ranges_spec.
  unfold build_predicate, emitted_clauses.
  split; [reflexivity|].
  destruct (flat_map (range_clause truthy column) ranges); split;
    intros E; try reflexivity; discriminate E.
Qed.

(** ** Distance calculator *)

Lemma Reqb_sym (x y : R) : Reqb x y = Reqb y x.
Proof.
  unfold Reqb. destruct (Req_dec_T x y), (Req_dec_T y x); congruence.
Qed.

Lemma sin_half_radians_sq (x y : R) :
  (sin (radians (x - y) / 2) * sin (radians (x - y) / 2)
   = sin (radians (y - x) / 2) * sin (radians (y - x) / 2))%R.
Proof.
  replace (radians (y - x) / 2)%R with (- (radians (x - y) / 2))%R
    by (unfold radians; field).
  rewrite sin_neg. ring.
Qed.

(** C9: the distance does not depend on the order of the two points. *)
Theorem distance_symmetric (lat1 lon1 lat2 lon2 : R) :
  distance lat1 lon1 lat2 lon2 = distance lat2 lon2 lat1 lon1.
Proof.
  unfold distance.
  rewrite (Reqb_sym lat1 lat2), (Reqb_sym lon1 lon2).
  destruct (Reqb lat2 lat1 && Reqb lon2 lon1); [reflexivity|].
  cbv zeta.
  assert (E : (sin (radians (lat1 - lat2) / 2) * sin (radians (lat1 - lat2) / 2)
               + cos (radians lat1) * cos (radians lat2)
                 * sin (radians (lon1 - lon2) / 2)
                 * sin (radians (lon1 - lon2) / 2)
               = sin (radians (lat2 - lat1) / 2) * sin (radians (lat2 - lat1) / 2)
                 + cos (radians lat2) * cos (radians lat1)
                   * sin (radians (lon2 - lon1) / 2)
                   * sin (radians (lon2 - lon1) / 2))%R).
  { rewrite (sin_half_radians_sq lat1 lat2).
    rewrite !Rmult_assoc, (sin_half_radians_sq lon1 lon2). ring. }
  now rewrite E.
Qed.

Lemma Reqb_refl (x : R) : Reqb x x = true.
Proof. unfold Reqb. destruct (Req_dec_T x x); congruence. Qed.

(** A point is at distance zero of itself. *)
Lemma distance_same_point (lat lon : R) : distance lat lon lat lon = 0%R.
Proof. unfold distance. now rewrite !Reqb_refl. Qed.

Lemma atan2_positive (y x : R) :
  (0 < y)%R -> (0 <= x)%R -> (0 < atan2 y x)%R.
Proof.
  intros Hy Hx. unfold atan2, Rltb.
  pose proof PI_RGT_0 as Hpi.
  destruct (Rlt_dec 0 x) as [Hpos|Hnpos].
  - assert (Hq : (0 < y / x)%R)
      by (apply Rmult_lt_0_compat; [assumption|now apply Rinv_0_lt_compat]).
    apply atan_increasing in Hq. now rewrite atan_0 in Hq.
  - destruct (Rlt_dec x 0); [lra|].
    destruct (Rlt_dec 0 y); lra.
Qed.

(** The point at one degree of latitude and of longitude is at a positive
    distance of the point (0, 0). *)
Lemma distance_one_degree_positive : (0 < distance 0 0 1 1)%R.
Proof.
  pose proof PI_RGT_0 as Hpi.
  unfold distance.
  assert (Hne : Reqb 0 1 = false)
    by (unfold Reqb; destruct (Req_dec_T 0 1); [lra|reflexivity]).
  rewrite Hne. simpl andb. cbv iota zeta.
  assert (HR : (0 < EQUATORIAL_R)%R) by (unfold EQUATORIAL_R; lra).
  set (a := (sin (radians (0 - 1) / 2) * sin (radians (0 - 1) / 2)
             + cos (radians 0) * cos (radians 1)
               * sin (radians (0 - 1) / 2) * sin (radians (0 - 1) / 2))%R).
  assert (Ha : (0 < a)%R).
  { unfold a.
    replace (radians (0 - 1) / 2)%R with (- (PI / 360))%R
      by (unfold radians; field).
    replace (radians 0) with 0%R by (unfold radians; ring).
    rewrite sin_neg, cos_0.
    assert (Hs : (0 < sin (PI / 360))%R) by (apply sin_gt_0; lra).
    assert (Hc : (0 < cos (radians 1))%R)
      by (apply cos_gt_0; unfold radians; lra).
    nra. }
  pose proof (atan2_positive (sqrt a) (sqrt (1 - a))
                (sqrt_lt_R0 a Ha) (sqrt_pos _)) as Hb.
  nra.
Qed.

(** ** The search loop *)

Section ControllerFacts.
Context `{Geohash} `{Database}.
Variables (coord_geoint max_result_cap : Z).
Variables (count_col geoint_col : Column) (custom_where_clause : string).

Local Abbreviation body := (loop_body coord_geoint max_result_cap count_col
                                  geoint_col custom_where_clause).
Local Abbreviation loop := (while_loop coord_geoint max_result_cap count_col
                                   geoint_col custom_where_clause).
Local Abbreviation iter := (iterate coord_geoint max_result_cap count_col
                                geoint_col custom_where_clause).
Local Abbreviation turn_predicate :=
  (turn_predicate coord_geoint geoint_col custom_where_clause).

Lemma count_queries_snoc (qs : list Query) (q : Query) :
  count_queries (app qs [q])
  = (count_queries qs + if is_count q then 1 else 0)%nat.
Proof.
  unfold count_queries. rewrite List.filter_app, length_app. simpl.
  now destruct (is_count q).
Qed.

Lemma fetch_queries_snoc (qs : list Query) (q : Query) :
  fetch_queries (app qs [q])
  = (fetch_queries qs + if is_fetch q then 1 else 0)%nat.
Proof.
  unfold fetch_queries. rewrite List.filter_app, length_app. simpl.
  now destruct (is_fetch q).
Qed.

Lemma execute_count_queries (w w' : World) (c : Column) (wc : string) (n : Z) :
  execute_count w c wc = (n, w') ->
  queries w' = app (queries w) [QCount c wc]
  /\ n = fst (count_query (conn w) c wc)
  /\ conn w' = snd (count_query (conn w) c wc).
Proof.
  unfold execute_count. destruct (count_query (conn w) c wc) as [m d].
  intros E; inversion E; subst; simpl; auto.
Qed.

(** A turn either finds the predicate empty and falls back without a query,
    or issues exactly one count query. *)
Lemma loop_body_cases (s s' : SearchState) (w w' : World) :
  body s w = (s', w') ->
  (get_geohash_where_clause coord_geoint (precision s) (name geoint_col) = ""
   /\ w' = w /\ stop s' = true /\ fall_back s' = true
   /\ loop_count s' = loop_count s)
  \/ (get_geohash_where_clause coord_geoint (precision s) (name geoint_col) <> ""
      /\ queries w' = app (queries w) [QCount count_col (turn_predicate s)]
      /\ conn w' = snd (count_query (conn w) count_col (turn_predicate s))
      /\ loop_count s' = loop_count s + 1
      /\ let result_size :=
           fst (count_query (conn w) count_col (turn_predicate s)) in
         (fall_back s' = true <->
            fall_back s = true
            \/ (result_size < max_result_cap /\ MAX_DB_HITS <= loop_count s + 1))
         /\ (stop s' = true <->
               stop s = true \/ result_size < previous_result_size s
               \/ max_result_cap <= result_size
               \/ MAX_DB_HITS <= loop_count s + 1)
         /\ where_clause s' =
              (if result_size <? previous_result_size s
               then previous_where_clause s else turn_predicate s)
         /\ (fall_back s' = false ->
               precision s' = adjust_precision (precision s) result_size
                                               max_result_cap)).
Proof.
  unfold loop_body, turn_predicate.
  set (wc := get_geohash_where_clause coord_geoint (precision s)
                                      (name geoint_col)).
  destruct (String.length wc =? 0)%nat eqn:El.
  - intros E; inversion E; subst; simpl. left.
    apply Nat.eqb_eq in El. destruct wc; [auto|discriminate El].
  - assert (wc <> "") by (intros ->; discriminate El).
    set (wc1 := if (0 <? String.length custom_where_clause)%nat
                then wc ++ custom_where_clause else wc).
    destruct (execute_count w count_col wc1) as [n w1] eqn:Ec.
    apply execute_count_queries in Ec as (Eq & En & Econn).
    rewrite <- En.
    destruct (n <? max_result_cap) eqn:Ecap;
      destruct (MAX_DB_HITS <=? loop_count s + 1) eqn:Eb;
      destruct (n <? previous_result_size s) eqn:Er;
      destruct (max_result_cap <=? n) eqn:Ecap';
      simpl; intros E; inversion E; subst; simpl; right;
      repeat (split; try assumption; try reflexivity; try tauto);
      try (intros [?|[?|[?|?]]]; try reflexivity; try assumption; lia);
      try (intros [?|[? ?]]; try reflexivity; try assumption; lia);
      try (intros; lia); try (intros; discriminate);
      try (destruct (stop s); intros; auto; lia).
Qed.

Lemma running_false_stop_or_fall_back (s : SearchState) :
  running s = false <-> stop s = true \/ fall_back s = true.
Proof. unfold running. destruct (stop s), (fall_back s); simpl; intuition congruence. Qed.

Lemma running_true (s : SearchState) :
  running s = true <-> stop s = false /\ fall_back s = false.
Proof. unfold running. destruct (stop s), (fall_back s); simpl; intuition congruence. Qed.

Lemma initial_invariant (db : DB) :
  loop_invariant initial_state {| conn := db; queries := [] |}.
Proof. unfold loop_invariant, MAX_DB_HITS; simpl. repeat split; intros; lia. Qed.

Lemma loop_body_invariant (s s' : SearchState) (w w' : World) :
  loop_invariant s w -> running s = true -> body s w = (s', w') ->
  loop_invariant s' w'.
Proof.
  intros (Hlc & Hrun & Hcnt & Hfetch) Hr E.
  specialize (Hrun Hr). apply running_true in Hr as [Hstop Hfb].
  apply loop_body_cases in E
    as [(_ & -> & Hs & Hf & Hl)
       |(_ & Hq & _ & Hl & Hfb' & Hstop' & _)].
  - unfold loop_invariant. rewrite Hl, running_true, Hs.
    repeat split; try lia; try assumption; try (intros [? _]; discriminate).
  - unfold loop_invariant.
    rewrite Hl, Hq, count_queries_snoc, fetch_queries_snoc, running_true.
    simpl. repeat split; try lia.
    intros [Hs' _].
    destruct (Z_lt_ge_dec (loop_count s + 1) MAX_DB_HITS) as [Hlt|Hge];
      [exact Hlt|].
    assert (stop s' = true) by (apply Hstop'; right; right; right; lia).
    congruence.
Qed.

Lemma while_loop_not_running (fuel : nat) (s : SearchState) (w : World) :
  running s = false -> loop fuel s w = Some (s, w).
Proof. intros Hr. destruct fuel; simpl; now rewrite Hr. Qed.

(** The loop terminates: the fuel that the budget leaves is enough. *)
Lemma while_loop_terminates (fuel : nat) :
  forall (s : SearchState) (w : World),
    loop_invariant s w ->
    (running s = true -> MAX_DB_HITS - loop_count s <= Z.of_nat fuel) ->
    exists s' w', loop fuel s w = Some (s', w')
                  /\ loop_invariant s' w' /\ running s' = false.
Proof.
  induction fuel as [|fuel IH]; intros s w Hinv Hfuel.
  - destruct (running s) eqn:Hr.
    + destruct Hinv as (_ & Hrun & _). specialize (Hrun Hr).
      specialize (Hfuel eq_refl). lia.
    + exists s, w. rewrite while_loop_not_running by assumption. auto.
  - destruct (running s) eqn:Hr.
    + simpl. rewrite Hr. destruct (body s w) as [s1 w1] eqn:E.
      pose proof (loop_body_invariant _ _ _ _ Hinv Hr E) as Hinv1.
      apply IH; [assumption|]. intros Hr1. specialize (Hfuel eq_refl).
      apply loop_body_cases in E as [(_ & _ & Hs & _)|(_ & _ & _ & Hl & _)].
      * apply running_true in Hr1 as [Hs1 _]. congruence.
      * lia.
    + exists s, w. rewrite while_loop_not_running by assumption. auto.
Qed.

Lemma while_loop_fuel_mono (fuel : nat) :
  forall (fuel' : nat) (s : SearchState) (w : World) (r : SearchState * World),
    loop fuel s w = Some r -> (fuel <= fuel')%nat -> loop fuel' s w = Some r.
Proof.
  induction fuel as [|fuel IH]; intros fuel' s w r E Hle.
  - simpl in E. destruct (running s) eqn:Hr; [discriminate|].
    now rewrite while_loop_not_running.
  - destruct fuel' as [|fuel']; [lia|].
    simpl in *. destruct (running s); [|assumption].
    destruct (body s w) as [s1 w1]. apply IH; [assumption|lia].
Qed.

(** A state in which the loop is still running after [n] turns is the state
    the loop itself goes through. *)
Lemma while_loop_iterate (n : nat) :
  forall (fuel : nat) (s : SearchState) (w : World),
    running (fst (iter n s w)) = true ->
    loop (n + fuel) s w = loop fuel (fst (iter n s w)) (snd (iter n s w)).
Proof.
  induction n as [|n IH]; intros fuel s w Hr; simpl in *.
  - reflexivity.
  - destruct (running s) eqn:Hs.
    + destruct (body s w) as [s1 w1]. now apply IH.
    + simpl in Hr. congruence.
Qed.

Lemma iterate_invariant (n : nat) :
  forall (s : SearchState) (w : World),
    loop_invariant s w -> loop_invariant (fst (iter n s w)) (snd (iter n s w)).
Proof.
  induction n as [|n IH]; intros s w Hinv; simpl.
  - assumption.
  - destruct (running s) eqn:Hs; [|assumption].
    destruct (body s w) as [s1 w1] eqn:E.
    apply IH. eapply loop_body_invariant; eassumption.
Qed.

End ControllerFacts.

(** ** The search *)

Lemma adjust_precision_table (precision count max_result_cap : Z) :
  adjust_precision precision count max_result_cap
  = table_precision precision count max_result_cap.
Proof.
  unfold adjust_precision, table_precision, yield_table, float. simpl.
  set (pr := (inject_Z count / inject_Z max_result_cap)%Q).
  destruct (Qeq_bool pr 0 && Qlt_bool (1 / inject_Z max_result_cap) (5 # 100));
    [reflexivity|].
  destruct (Qeq_bool pr 0 && Qle_bool (5 # 100) (1 / inject_Z max_result_cap));
    [reflexivity|].
  destruct (Qle_bool pr (5 # 100)); [reflexivity|].
  destruct (Qlt_bool pr (25 # 100)); [reflexivity|].
  destruct (Qlt_bool pr (5 # 10)); reflexivity.
Qed.

(** The bands of the yield ratio, on the integers: for a positive cap the
    comparisons of [count / cap] with 0, 0.05, 0.25 and 0.5 are comparisons
    of [count] with fractions of the cap, and [1 / cap < 0.05] is [20 < cap]. *)
Lemma adjust_precision_integer_bands (precision count cap : Z) :
  0 < cap ->
  adjust_precision precision count cap
  = Z.max 0
      (if count =? 0 then
         if 20 <? cap then step_with_floor precision 8 4
         else step_with_floor precision 7 4
       else if 20 * count <=? cap then step_with_floor precision 6 4
       else if 4 * count <? cap then step_with_floor precision 4 4
       else if 2 * count <? cap then step_with_floor precision 2 3
       else precision - 1).
Proof.
  intros Hcap. destruct cap as [|p|p]; try lia.
  unfold adjust_precision, step_with_floor, float, Qlt_bool, Qle_bool, Qeq_bool,
    Qdiv, Qmult, Qinv, inject_Z.
  cbn [Qnum Qden]. rewrite Pos.mul_1_l.
  set (b8 := if precision <=? 4 then precision - 1 else Z.max 4 (precision - 8)).
  set (b7 := if precision <=? 4 then precision - 1 else Z.max 4 (precision - 7)).
  set (b6 := if precision <=? 4 then precision - 1 else Z.max 4 (precision - 6)).
  set (b4 := if precision <=? 4 then precision - 1 else Z.max 4 (precision - 4)).
  set (b2 := if precision <=? 3 then precision - 1 else Z.max 3 (precision - 2)).
  f_equal.
  repeat match goal with
         | |- context [?a =? ?b] => destruct (Z.eqb_spec a b)
         | |- context [?a <=? ?b] => destruct (Z.leb_spec a b)
         | |- context [?a <? ?b] => destruct (Z.ltb_spec a b)
         end; simpl; try reflexivity; lia.
Qed.

Section SearchFacts.
Context `{Geohash} `{Database}.

(** C2: in a turn after which the loop goes on, the new precision is the one
    of the yield table, for the count that the turn obtained. *)
Theorem precision_follows_yield_table (coord_geoint max_result_cap : Z)
    (count_col geoint_col : Column) (custom_where_clause : string)
    (s : SearchState) (w : World) :
  running s = true ->
  running (fst (loop_body coord_geoint max_result_cap count_col geoint_col
                          custom_where_clause s w)) = true ->
  precision (fst (loop_body coord_geoint max_result_cap count_col geoint_col
                            custom_where_clause s w))
  = table_precision
      (precision s)
      (fst (count_query (conn w) count_col
              (turn_predicate coord_geoint geoint_col custom_where_clause s)))
      max_result_cap.
Proof.
  intros Hr Hr'.
  destruct (loop_body coord_geoint max_result_cap count_col geoint_col
                      custom_where_clause s w) as [s' w'] eqn:E.
  simpl in *. apply running_true in Hr' as [Hs' Hf'].
  apply loop_body_cases in E
    as [(_ & _ & Hs & _)|(_ & _ & _ & _ & _ & _ & _ & Hp)].
  - congruence.
  - rewrite Hp by assumption. apply adjust_precision_table.
Qed.

Lemma search_loop_total (coord_geoint max_result_cap : Z)
    (count_col geoint_col : Column) (custom_where_clause : string)
    (db : DB) (fuel : nat) :
  (20 <= fuel)%nat ->
  exists s w,
    while_loop coord_geoint max_result_cap count_col geoint_col
               custom_where_clause fuel initial_state
               {| conn := db; queries := [] |} = Some (s, w)
    /\ loop_invariant s w /\ running s = false.
Proof.
  intros Hfuel. apply while_loop_terminates.
  - apply initial_invariant.
  - intros _. unfold MAX_DB_HITS. simpl. lia.
Qed.

(** The call on arguments of the expected types. *)
Lemma adaptive_typed (fuel : nat) (latitude longitude lower_cut upper_cut : pyval)
    (lat lon : R) (lc uc : Z) (select_cols : loc)
    (count_col lat_col lon_col geoint_col : Column)
    (custom_where_clause : string) (db : DB) (h : gmap loc (list Column)) :
  typed_args latitude longitude lower_cut upper_cut lat lon lc uc ->
  adaptive_geohash_nearby_search fuel latitude longitude lower_cut upper_cut
    select_cols count_col lat_col lon_col geoint_col custom_where_clause db h
  = match search fuel lat lon lc uc
            (list_contents (add_coordinate_columns h select_cols lat_col lon_col)
                           select_cols)
            count_col lat_col lon_col geoint_col custom_where_clause db with
    | None => None
    | Some (value, w) =>
        Some (Returned value
                (add_coordinate_columns h select_cols lat_col lon_col)
                (conn w) (queries w))
    end.
Proof.
  intros (Ela & Elo & Elc & Euc).
  unfold adaptive_geohash_nearby_search, param_check_fails.
  destruct latitude, longitude, lower_cut, upper_cut; try discriminate;
    simpl in *; inversion Ela; inversion Elo; inversion Elc; inversion Euc;
    subst; reflexivity.
Qed.

(** A call that returns had arguments of the expected types. *)
Lemma adaptive_returned (fuel : nat)
    (latitude longitude lower_cut upper_cut : pyval) (select_cols : loc)
    (count_col lat_col lon_col geoint_col : Column)
    (custom_where_clause : string) (db : DB) (h : gmap loc (list Column))
    (value : option (list Row)) (h' : gmap loc (list Column)) (db' : DB)
    (issued : list Query) :
  adaptive_geohash_nearby_search fuel latitude longitude lower_cut upper_cut
    select_cols count_col lat_col lon_col geoint_col custom_where_clause db h
  = Some (Returned value h' db' issued) ->
  exists lat lon lc uc w,
    typed_args latitude longitude lower_cut upper_cut lat lon lc uc
    /\ h' = add_coordinate_columns h select_cols lat_col lon_col
    /\ search fuel lat lon lc uc (list_contents h' select_cols)
              count_col lat_col lon_col geoint_col custom_where_clause db
       = Some (value, w)
    /\ db' = conn w /\ issued = queries w.
Proof.
  unfold adaptive_geohash_nearby_search.
  destruct (param_check_fails latitude longitude lower_cut upper_cut);
    [discriminate|].
  destruct (as_number latitude) as [lat|] eqn:Ela; [|discriminate].
  destruct (as_number longitude) as [lon|] eqn:Elo; [|discriminate].
  destruct (as_int lower_cut) as [lc|] eqn:Elc; [|discriminate].
  destruct (as_int upper_cut) as [uc|] eqn:Euc; [|discriminate].
  destruct (search fuel lat lon lc uc _ count_col lat_col lon_col geoint_col
                   custom_where_clause db) as [[v w]|] eqn:Es; [|discriminate].
  intros E; inversion E; subst.
  exists lat, lon, lc, uc, w. unfold typed_args. auto 10.
Qed.

(** The value of [search] from the state in which the loop ends. *)
Lemma search_after_loop (fuel : nat) (lat lon : R) (lc uc : Z)
    (cols : list Column) (count_col lat_col lon_col geoint_col : Column)
    (custom_where_clause : string) (db : DB) (s : SearchState) (w : World) :
  while_loop (encode_uint64 lat lon) (Z.max uc 20) count_col geoint_col
             custom_where_clause fuel initial_state
             {| conn := db; queries := [] |} = Some (s, w) ->
  search fuel lat lon lc uc cols count_col lat_col lon_col geoint_col
         custom_where_clause db
  = if fall_back s then Some (None, w)
    else Some (Some (materialize lat lon lc uc lat_col lon_col
                       (fst (fetch_query (conn w) cols (where_clause s)))),
               {| conn := snd (fetch_query (conn w) cols (where_clause s));
                  queries := app (queries w) [QFetch cols (where_clause s)] |}).
Proof.
  intros E. unfold search. rewrite E. unfold execute_fetch.
  destruct (fall_back s); simpl; [reflexivity|].
  now destruct (fetch_query (conn w) cols (where_clause s)).
Qed.

End SearchFacts.

Section SearchClaims.
Context `{Geohash} `{Database}.
Variables (fuel : nat) (latitude longitude lower_cut upper_cut : pyval).
Variables (select_cols : loc) (count_col lat_col lon_col geoint_col : Column).
Variables (custom_where_clause : string) (db : DB) (h : gmap loc (list Column)).

Local Abbreviation call :=
  (adaptive_geohash_nearby_search fuel latitude longitude lower_cut upper_cut
     select_cols count_col lat_col lon_col geoint_col custom_where_clause db h).

(** C3: with the fuel of the budget the loop ends, whatever the database
    answers and for every center and cap; its loop count is at most 20 in
    the end and in every state it goes through; the call itself ends, and a
    call that returns has issued at most 20 count queries. *)
Theorem search_terminates_within_budget :
  (20 <= fuel)%nat ->
  (forall coord_geoint max_result_cap : Z,
      exists s w,
        while_loop coord_geoint max_result_cap count_col geoint_col
                   custom_where_clause fuel initial_state
                   {| conn := db; queries := [] |} = Some (s, w)
        /\ loop_count s <= MAX_DB_HITS
        /\ Z.of_nat (count_queries (queries w)) = loop_count s)
  /\ (forall (coord_geoint max_result_cap : Z) (n : nat),
         loop_count (fst (iterate coord_geoint max_result_cap count_col
                                  geoint_col custom_where_clause n initial_state
                                  {| conn := db; queries := [] |}))
         <= MAX_DB_HITS)
  /\ (exists o, call = Some o
                /\ match o with
                   | Returned _ _ _ issued => (count_queries issued <= 20)%nat
                   | _ => True
                   end).
Proof.
  intros Hfuel. split; [|split].
  - intros coord cap.
    destruct (search_loop_total coord cap count_col geoint_col
                custom_where_clause db fuel Hfuel) as (s & w & E & Hinv & _).
    exists s, w. destruct Hinv as (Hlc & _ & Hcnt & _). repeat split; tauto.
  - intros coord cap n.
    pose proof (iterate_invariant coord cap count_col geoint_col
                  custom_where_clause n _ _ (initial_invariant db))
      as (Hlc & _).
    tauto.
  - unfold adaptive_geohash_nearby_search.
    destruct (param_check_fails latitude longitude lower_cut upper_cut);
      [now eexists|].
    destruct (as_number latitude) as [lat|]; [|now eexists].
    destruct (as_number longitude) as [lon|]; [|now eexists].
    destruct (as_int lower_cut) as [lc|]; [|now eexists].
    destruct (as_int upper_cut) as [uc|]; [|now eexists].
    destruct (search_loop_total (encode_uint64 lat lon) (Z.max uc 20) count_col
                geoint_col custom_where_clause db fuel Hfuel)
      as (s & w & E & (Hlc & _ & Hcnt & _) & _).
    rewrite (search_after_loop _ _ _ lc _ _ _ lat_col lon_col _ _ _ _ _ E).
    unfold MAX_DB_HITS in *.
    destruct (fall_back s); eexists; (split; [reflexivity|]); simpl.
    + lia.
    + rewrite count_queries_snoc. simpl. lia.
Qed.

(** C4: when the expansion at the starting precision is empty, the call
    returns the fallback value, and it has issued no query at all. *)
Theorem empty_expansion_falls_back (lat lon : R) (lc uc : Z) :
  typed_args latitude longitude lower_cut upper_cut lat lon lc uc ->
  expand_uint64 (encode_uint64 lat lon) 50 = [] ->
  (1 <= fuel)%nat ->
  call = Some (Returned None
                 (add_coordinate_columns h select_cols lat_col lon_col) db []).
Proof.
  intros Ht Hex Hfuel.
  rewrite (adaptive_typed _ _ _ _ _ _ _ _ _ _ _ _ _ _ _ _ _ Ht).
  destruct fuel as [|fuel']; [lia|].
  erewrite search_after_loop.
  2:{ simpl. unfold loop_body, get_geohash_where_clause. simpl.
      rewrite Hex. simpl. rewrite while_loop_not_running; reflexivity. }
  reflexivity.
Qed.

(** C1, amended: when the count of a turn other than the twentieth is less
    than the count recorded before, the loop ends there, converged, with the
    predicate recorded before, and the rows returned are those fetched with
    that predicate. *)
Theorem regression_reverts_to_previous_predicate (lat lon : R) (lc uc : Z)
    (n : nat) (s : SearchState) (w : World) :
  typed_args latitude longitude lower_cut upper_cut lat lon lc uc ->
  iterate (encode_uint64 lat lon) (Z.max uc 20) count_col geoint_col
          custom_where_clause n initial_state {| conn := db; queries := [] |}
  = (s, w) ->
  running s = true ->
  get_geohash_where_clause (encode_uint64 lat lon) (precision s)
                           (name geoint_col) <> "" ->
  fst (count_query (conn w) count_col
         (turn_predicate (encode_uint64 lat lon) geoint_col
                         custom_where_clause s))
  < previous_result_size s ->
  loop_count s + 1 < MAX_DB_HITS ->
  (20 <= fuel)%nat ->
  exists s' w',
    while_loop (encode_uint64 lat lon) (Z.max uc 20) count_col geoint_col
               custom_where_clause fuel initial_state
               {| conn := db; queries := [] |} = Some (s', w')
    /\ stop s' = true /\ fall_back s' = false
    /\ where_clause s' = previous_where_clause s
    /\ let cols := list_contents
                     (add_coordinate_columns h select_cols lat_col lon_col)
                     select_cols in
       let fetched := fetch_query (conn w') cols (previous_where_clause s) in
       call = Some (Returned
                      (Some (materialize lat lon lc uc lat_col lon_col
                                         (fst fetched)))
                      (add_coordinate_columns h select_cols lat_col lon_col)
                      (snd fetched)
                      (app (queries w')
                           [QFetch cols (previous_where_clause s)])).
Proof.
  intros Ht Hit Hr Hwc Hreg Hlc Hfuel.
  set (coord := encode_uint64 lat lon) in *.
  set (cap := Z.max uc 20) in *.
  destruct (loop_body coord cap count_col geoint_col custom_where_clause s w)
    as [s1 w1] eqn:Eb.
  pose proof Eb as Hcases.
  apply loop_body_cases in Hcases
    as [(Hempty & _)|(_ & Hq & Hconn & Hl & Hfb & Hstop & Hw & _)];
    [contradiction|].
  apply running_true in Hr as Hsf. destruct Hsf as [Hs0 Hf0].
  assert (Hf1 : fall_back s1 = false).
  { destruct (fall_back s1) eqn:Ef; [|reflexivity].
    destruct Hfb as [Hfb _]. destruct (Hfb eq_refl) as [?|[_ ?]];
      [congruence|lia]. }
  assert (Hs1 : stop s1 = true) by (apply Hstop; right; left; exact Hreg).
  assert (Hw1 : where_clause s1 = previous_where_clause s).
  { rewrite Hw. apply Z.ltb_lt in Hreg. now rewrite Hreg. }
  assert (E1 : while_loop coord cap count_col geoint_col custom_where_clause
                          (n + 1) initial_state {| conn := db; queries := [] |}
               = Some (s1, w1)).
  { rewrite while_loop_iterate by (rewrite Hit; exact Hr).
    rewrite Hit. simpl. rewrite Hr, Eb.
    unfold running. now rewrite Hs1. }
  destruct (search_loop_total coord cap count_col geoint_col
              custom_where_clause db fuel Hfuel) as (s' & w' & E & _).
  assert (Esame : (s', w') = (s1, w1)).
  { pose proof (while_loop_fuel_mono _ _ _ _ _ _ (Nat.max fuel (n + 1)) _ _ _
                  E (Nat.le_max_l _ _)) as Ea.
    pose proof (while_loop_fuel_mono _ _ _ _ _ _ (Nat.max fuel (n + 1)) _ _ _
                  E1 (Nat.le_max_r _ _)) as Eb'.
    congruence. }
  inversion Esame; subst s' w'.
  exists s1, w1. repeat split; try assumption.
  cbv zeta.
  rewrite (adaptive_typed _ _ _ _ _ _ _ _ _ _ _ _ _ _ _ _ _ Ht).
  fold coord cap in E.
  erewrite search_after_loop by exact E.
  now rewrite Hf1, Hw1.
Qed.

End SearchClaims.

(** ** Slices *)

Lemma py_slice_nonneg {A : Type} (l : list A) (i j : Z) :
  0 <= i -> 0 <= j ->
  py_slice l i j = firstn (Z.to_nat (j - i)) (skipn (Z.to_nat i) l).
Proof.
  intros Hi Hj. unfold py_slice, slice_index.
  destruct (i <? 0) eqn:Ei; [apply Z.ltb_lt in Ei; lia|].
  destruct (j <? 0) eqn:Ej; [apply Z.ltb_lt in Ej; lia|].
  destruct (Z_le_gt_dec (Z.of_nat (length l)) i) as [Hfar|Hin].
  - rewrite (Z.min_r i) by lia.
    rewrite !skipn_all2 by lia. now rewrite !firstn_nil.
  - rewrite (Z.min_l i) by lia.
    destruct (Z_le_gt_dec j (Z.of_nat (length l))) as [Hj'|Hj'].
    + now rewrite (Z.min_l j) by lia.
    + rewrite (Z.min_r j) by lia.
      rewrite !firstn_all2; try reflexivity; rewrite length_skipn; lia.
Qed.


Lemma StronglySorted_skipn {A : Type} (R : A -> A -> Prop) (n : nat) :
  forall l : list A, StronglySorted R l -> StronglySorted R (skipn n l).
Proof.
  induction n as [|n IH]; intros l Hs; [assumption|].
  destruct l as [|x l]; [constructor|].
  simpl. apply IH. now apply StronglySorted_inv in Hs.
Qed.

Lemma firstn_In {A : Type} (y : A) (n : nat) :
  forall l : list A, In y (firstn n l) -> In y l.
Proof.
  induction n as [|n IH]; intros [|x l]; simpl; try tauto.
  intros [->|Hy]; auto.
Qed.

Lemma StronglySorted_firstn {A : Type} (R : A -> A -> Prop) (n : nat) :
  forall l : list A, StronglySorted R l -> StronglySorted R (firstn n l).
Proof.
  induction n as [|n IH]; intros l Hs; [constructor|].
  destruct l as [|x l]; [constructor|].
  apply StronglySorted_inv in Hs as [Hs Hx].
  simpl. constructor; [now apply IH|].
  rewrite List.Forall_forall in *. intros y Hy. apply Hx.
  revert Hy. apply firstn_In.
Qed.

Lemma StronglySorted_py_slice {A : Type} (R : A -> A -> Prop) (l : list A)
    (i j : Z) :
  StronglySorted R l -> StronglySorted R (py_slice l i j).
Proof.
  intros Hs. unfold py_slice.
  now apply StronglySorted_firstn, StronglySorted_skipn.
Qed.

(** ** The sort by distance *)

Section SortFacts.
Context `{Database}.

Lemma Rltb_true (x y : R) : Rltb x y = true <-> (x < y)%R.
Proof. unfold Rltb. destruct (Rlt_dec x y); intuition congruence. Qed.

Lemma Rltb_false (x y : R) : Rltb x y = false <-> (y <= x)%R.
Proof.
  unfold Rltb. destruct (Rlt_dec x y); split; intros; try congruence; lra.
Qed.

Lemma insert_by_key_perm (x : Row * R) (l : list (Row * R)) :
  Permutation (insert_by_key x l) (x :: l).
Proof.
  induction l as [|y l IH]; simpl; [reflexivity|].
  destruct (Rltb (snd y) (snd x)); [|reflexivity].
  rewrite IH. apply perm_swap.
Qed.

Lemma sorted_by_key_perm (l : list (Row * R)) :
  Permutation (sorted_by_key l) l.
Proof.
  induction l as [|x l IH]; simpl; [reflexivity|].
  rewrite insert_by_key_perm. now constructor.
Qed.

Lemma insert_by_key_sorted (x : Row * R) (l : list (Row * R)) :
  StronglySorted (fun a b => (snd a <= snd b)%R) l ->
  StronglySorted (fun a b => (snd a <= snd b)%R) (insert_by_key x l).
Proof.
  induction l as [|y l IH]; intros Hs; simpl.
  - repeat constructor.
  - apply StronglySorted_inv in Hs as Hinv. destruct Hinv as [Hl Hy].
    destruct (Rltb (snd y) (snd x)) eqn:E.
    + apply Rltb_true in E. constructor; [now apply IH|].
      rewrite List.Forall_forall in *. intros z Hz.
      apply (Permutation_in _ (insert_by_key_perm x l)) in Hz as [<-|Hz].
      * lra.
      * now apply Hy.
    + apply Rltb_false in E. constructor; [assumption|].
      constructor; [assumption|].
      rewrite List.Forall_forall in *. intros z Hz.
      specialize (Hy z Hz). simpl in *. lra.
Qed.

Lemma sorted_by_key_sorted (l : list (Row * R)) :
  StronglySorted (fun a b => (snd a <= snd b)%R) (sorted_by_key l).
Proof.
  induction l as [|x l IH]; simpl; [constructor|].
  now apply insert_by_key_sorted.
Qed.

(** The sort is stable: the elements of a given key keep their order. *)
Lemma insert_by_key_stable (d : R) (x : Row * R) (l : list (Row * R)) :
  List.filter (fun e => Reqb (snd e) d) (insert_by_key x l)
  = List.filter (fun e => Reqb (snd e) d) (x :: l).
Proof.
  induction l as [|y l IH]; [reflexivity|].
  simpl insert_by_key. destruct (Rltb (snd y) (snd x)) eqn:E; [|reflexivity].
  apply Rltb_true in E.
  change (List.filter (fun e => Reqb (snd e) d) (y :: insert_by_key x l))
    with (if Reqb (snd y) d
          then y :: List.filter (fun e => Reqb (snd e) d) (insert_by_key x l)
          else List.filter (fun e => Reqb (snd e) d) (insert_by_key x l)).
  rewrite IH. simpl.
  unfold Reqb.
  destruct (Req_dec_T (snd y) d), (Req_dec_T (snd x) d); try reflexivity.
  lra.
Qed.

Lemma sorted_by_key_stable (d : R) (l : list (Row * R)) :
  List.filter (fun e => Reqb (snd e) d) (sorted_by_key l)
  = List.filter (fun e => Reqb (snd e) d) l.
Proof.
  induction l as [|x l IH]; [reflexivity|].
  simpl sorted_by_key. rewrite insert_by_key_stable. simpl. now rewrite IH.
Qed.

Variables (lat lon : R) (lat_col lon_col : Column).

Local Abbreviation dist := (row_distance lat lon lat_col lon_col).
Local Abbreviation by_distance := (fun r1 r2 : Row => (dist r1 <= dist r2)%R).
Local Abbreviation ranked := (ranked_rows lat lon lat_col lon_col).

Lemma scored_keys (data : list Row) :
  Forall (fun e => snd e = dist (fst e)) (scored lat lon lat_col lon_col data).
Proof. unfold scored. induction data; simpl; constructor; auto. Qed.

Lemma sorted_scored_keys (data : list Row) :
  Forall (fun e => snd e = dist (fst e))
         (sorted_by_key (scored lat lon lat_col lon_col data)).
Proof.
  rewrite List.Forall_forall. intros e He.
  apply (Permutation_in _ (sorted_by_key_perm _)) in He.
  revert e He. rewrite <- List.Forall_forall. apply scored_keys.
Qed.

Lemma ranked_perm (data : list Row) : Permutation (ranked data) data.
Proof.
  unfold ranked_rows.
  rewrite (sorted_by_key_perm (scored lat lon lat_col lon_col data)).
  unfold scored. rewrite map_map. simpl. now rewrite map_id.
Qed.

Lemma keyed_sorted_rows (l : list (Row * R)) :
  Forall (fun e => snd e = dist (fst e)) l ->
  StronglySorted (fun a b => (snd a <= snd b)%R) l ->
  StronglySorted by_distance (map fst l).
Proof.
  induction l as [|x l IH]; intros Hk Hs; simpl; [constructor|].
  apply StronglySorted_inv in Hs as [Hs Hx].
  apply Forall_cons_iff in Hk as [Hkx Hk].
  constructor; [now apply IH|].
  rewrite List.Forall_forall in *. intros r Hr.
  apply in_map_iff in Hr as (e & <- & He).
  rewrite <- Hkx, <- (Hk e He). now apply Hx.
Qed.

Lemma ranked_sorted (data : list Row) : StronglySorted by_distance (ranked data).
Proof.
  apply keyed_sorted_rows; [apply sorted_scored_keys|apply sorted_by_key_sorted].
Qed.


Lemma keyed_filter (d : R) (l : list (Row * R)) :
  Forall (fun e => snd e = dist (fst e)) l ->
  List.filter (fun r => Reqb (dist r) d) (map fst l)
  = map fst (List.filter (fun e => Reqb (snd e) d) l).
Proof.
  induction l as [|x l IH]; intros Hk; [reflexivity|].
  apply Forall_cons_iff in Hk as [Hkx Hk].
  simpl. rewrite <- Hkx, IH by assumption.
  now destruct (Reqb (snd x) d).
Qed.

Lemma ranked_stable (d : R) (data : list Row) :
  List.filter (fun r => Reqb (dist r) d) (ranked data)
  = List.filter (fun r => Reqb (dist r) d) data.
Proof.
  unfold ranked_rows.
  rewrite keyed_filter by apply sorted_scored_keys.
  rewrite sorted_by_key_stable.
  rewrite <- keyed_filter by apply scored_keys.
  unfold scored. rewrite map_map. simpl. now rewrite map_id.
Qed.

End SortFacts.

(** ** The caller's lists *)

Lemma list_in_decide (h : gmap loc (list Column)) (c : Column) (l : loc) :
  list_in h c l = if decide (c ∈ list_contents h l) then true else false.
Proof. unfold list_in. apply bool_decide_decide. Qed.

Lemma list_append_lookup (h : gmap loc (list Column)) (l : loc) (c : Column) :
  list_append h l c !! l = Some (app (list_contents h l) [c]).
Proof. unfold list_append. apply lookup_insert_eq. Qed.

Lemma list_contents_append (h : gmap loc (list Column)) (l : loc) (c : Column) :
  list_contents (list_append h l c) l = app (list_contents h l) [c].
Proof. unfold list_contents at 1. now rewrite list_append_lookup. Qed.

Lemma list_append_other (h : gmap loc (list Column)) (l l' : loc) (c : Column) :
  l' <> l -> list_append h l c !! l' = h !! l'.
Proof. intros Hl. unfold list_append. apply lookup_insert_ne. congruence. Qed.

(** ** The value returned and the caller's list *)

Section ResultClaims.
Context `{Geohash} `{Database}.
Variables (fuel : nat) (latitude longitude lower_cut upper_cut : pyval).
Variables (select_cols : loc) (count_col lat_col lon_col geoint_col : Column).
Variables (custom_where_clause : string) (db : DB) (h : gmap loc (list Column)).

Local Abbreviation call :=
  (adaptive_geohash_nearby_search fuel latitude longitude lower_cut upper_cut
     select_cols count_col lat_col lon_col geoint_col custom_where_clause db h).

(** A call that returns rows has fetched them with the predicate on which
    the loop ended. *)
Lemma returned_rows_fetched (rows : list Row) (h' : gmap loc (list Column))
    (db' : DB) (issued : list Query) :
  call = Some (Returned (Some rows) h' db' issued) ->
  exists lat lon lc uc s w,
    typed_args latitude longitude lower_cut upper_cut lat lon lc uc
    /\ while_loop (encode_uint64 lat lon) (Z.max uc 20) count_col geoint_col
                  custom_where_clause fuel initial_state
                  {| conn := db; queries := [] |} = Some (s, w)
    /\ fall_back s = false
    /\ rows = materialize lat lon lc uc lat_col lon_col
                (fst (fetch_query (conn w) (list_contents h' select_cols)
                                  (where_clause s))).
Proof.
  intros E.
  apply adaptive_returned in E as (lat & lon & lc & uc & w' & Ht & _ & Es & _).
  exists lat, lon, lc, uc.
  destruct (while_loop (encode_uint64 lat lon) (Z.max uc 20) count_col geoint_col
                       custom_where_clause fuel initial_state
                       {| conn := db; queries := [] |}) as [[s w]|] eqn:El.
  - exists s, w.
    rewrite (search_after_loop _ _ _ lc _ (list_contents h' select_cols) _
               lat_col lon_col _ _ _ _ _ El) in Es.
    destruct (fall_back s); [discriminate|].
    inversion Es; subst. auto.
  - unfold search in Es. rewrite El in Es. discriminate.
Qed.

(** C7: the rows returned are the slice, from [lower_cut] to [upper_cut], of
    the fetched rows in the order of a stable sort by their distance to the
    point of the call, [distance latitude longitude row[lat_col] row[lon_col]]:
    a permutation of the fetched rows, in non-decreasing distance, in which
    the rows at a same distance keep the order of the fetch.  The rows
    returned are therefore in non-decreasing distance to that point. *)
Theorem returned_rows_sorted_slice (rows : list Row)
    (h' : gmap loc (list Column)) (db' : DB) (issued : list Query) :
  call = Some (Returned (Some rows) h' db' issued) ->
  exists lat lon lc uc s w,
    typed_args latitude longitude lower_cut upper_cut lat lon lc uc
    /\ while_loop (encode_uint64 lat lon) (Z.max uc 20) count_col geoint_col
                  custom_where_clause fuel initial_state
                  {| conn := db; queries := [] |} = Some (s, w)
    /\ let data := fst (fetch_query (conn w) (list_contents h' select_cols)
                                    (where_clause s)) in
       let dist := fun row : Row =>
                     distance lat lon (row_value row lat_col)
                              (row_value row lon_col) in
       let sorted_rows := ranked_rows lat lon lat_col lon_col data in
       Permutation sorted_rows data
       /\ StronglySorted (fun r1 r2 => (dist r1 <= dist r2)%R) sorted_rows
       /\ (forall d : R,
              List.filter (fun r => Reqb (dist r) d) sorted_rows
              = List.filter (fun r => Reqb (dist r) d) data)
       /\ rows = py_slice sorted_rows lc uc
       /\ (0 <= lc -> 0 <= uc ->
           rows = firstn (Z.to_nat (uc - lc)) (skipn (Z.to_nat lc) sorted_rows))
       /\ StronglySorted (fun r1 r2 => (dist r1 <= dist r2)%R) rows.
Proof.
  intros E.
  apply returned_rows_fetched in E
    as (lat & lon & lc & uc & s & w & Ht & El & _ & Er).
  exists lat, lon, lc, uc, s, w. split; [assumption|]. split; [assumption|].
  cbv zeta. unfold materialize in Er.
  split; [apply ranked_perm|].
  split; [exact (ranked_sorted lat lon lat_col lon_col _)|].
  split; [intros d; exact (ranked_stable lat lon lat_col lon_col d _)|].
  split; [assumption|].
  split.
  - intros Hlc Huc. rewrite Er. now apply py_slice_nonneg.
  - rewrite Er. apply StronglySorted_py_slice.
    exact (ranked_sorted lat lon lat_col lon_col _).
Qed.


(** C10: a call that returns has appended to the caller's list, in place,
    each of [lat_col] and [lon_col] that was not in it: the list object at
    [select_cols] is the old one followed by the columns added, it is longer
    whenever one was missing, and no other list object has changed. *)
Theorem select_cols_mutated_in_place (value : option (list Row))
    (h' : gmap loc (list Column)) (db' : DB) (issued : list Query) :
  call = Some (Returned value h' db' issued) ->
  let old := list_contents h select_cols in
  let new := list_contents h' select_cols in
  new = app old
          (app (if decide (lat_col ∈ old) then [] else [lat_col])
               (if decide (lon_col ∈ old \/ lon_col = lat_col)
                then [] else [lon_col]))
  /\ (lat_col ∉ old ->
      lat_col ∈ new /\ (length old < length new)%nat
      /\ h' !! select_cols = Some new)
  /\ (lon_col ∉ old ->
      lon_col ∈ new /\ (length old < length new)%nat
      /\ h' !! select_cols = Some new)
  /\ (forall l : loc, l <> select_cols -> h' !! l = h !! l).
Proof.
  intros E. apply adaptive_returned in E as (_ & _ & _ & _ & _ & _ & -> & _).
  cbv zeta. unfold add_coordinate_columns.
  set (old := list_contents h select_cols).
  rewrite (list_in_decide h lat_col select_cols). fold old.
  destruct (decide (lat_col ∈ old)) as [Hlat|Hlat]; simpl negb; cbv iota.
  - rewrite (list_in_decide h lon_col select_cols). fold old.
    destruct (decide (lon_col ∈ old)) as [Hlon|Hlon]; simpl negb; cbv iota.
    + rewrite decide_True by auto. fold old. rewrite !app_nil_r.
      repeat split; try reflexivity; contradiction.
    + rewrite decide_False by (intros [?|?]; [|subst]; contradiction).
      rewrite list_contents_append, list_append_lookup. fold old. simpl.
      repeat split; try contradiction; try reflexivity.
      * apply elem_of_app; right; apply list_elem_of_singleton; reflexivity.
      * rewrite length_app; simpl; lia.
      * intros l Hl. now apply list_append_other.
  - rewrite (list_in_decide _ lon_col select_cols), list_contents_append.
    fold old.
    destruct (decide (lon_col ∈ app old [lat_col])) as [Hlon|Hlon];
      simpl negb; cbv iota.
    + rewrite decide_True
        by (apply elem_of_app in Hlon as [?|Hl%list_elem_of_singleton]; auto).
      rewrite list_contents_append, list_append_lookup. fold old.
      rewrite app_nil_r.
      assert (Hin : lat_col ∈ app old [lat_col])
        by (apply elem_of_app; right; apply list_elem_of_singleton; reflexivity).
      assert (Hlen : (length old < length (app old [lat_col]))%nat)
        by (rewrite length_app; simpl; lia).
      repeat split; try reflexivity; try assumption.
      intros l Hl. now apply list_append_other.
    + assert (Hne : lon_col <> lat_col).
      { intros ->. apply Hlon, elem_of_app. right.
        apply list_elem_of_singleton. reflexivity. }
      assert (Hno : lon_col ∉ old).
      { intros Hin. apply Hlon, elem_of_app. now left. }
      rewrite decide_False by (intros [?|?]; contradiction).
      rewrite !list_contents_append, list_append_lookup, list_contents_append.
      fold old. rewrite <- app_assoc. simpl.
      repeat split; try reflexivity.
      * apply elem_of_app. right. apply elem_of_cons. now left.
      * rewrite length_app; simpl; lia.
      * apply elem_of_app. right. apply elem_of_cons. right.
        apply list_elem_of_singleton. reflexivity.
      * rewrite length_app; simpl; lia.
      * intros l Hl. rewrite !list_append_other by assumption. reflexivity.
Qed.

(** C5, at a request with a longitude that is not a number: the check of
    line 88 lets it pass, lines 90 to 93 run, and the call does not raise
    [InvalidParamException]. *)
Theorem bad_longitude_passes_check :
  param_check_fails (VFloat 1) (VStr "abc") (VInt 0) (VInt 10) = false
  /\ adaptive_geohash_nearby_search fuel (VFloat 1) (VStr "abc") (VInt 0)
       (VInt 10) select_cols count_col lat_col lon_col geoint_col
       custom_where_clause db h
     = Some (Unmodelled (add_coordinate_columns h select_cols lat_col lon_col))
  /\ adaptive_geohash_nearby_search fuel (VFloat 1) (VStr "abc") (VInt 0)
       (VInt 10) select_cols count_col lat_col lon_col geoint_col
       custom_where_clause db h
     <> Some Raised_InvalidParamException.
Proof. repeat split. discriminate. Qed.

(** The check of line 88 fails exactly when the latitude is not a number
    while the three other arguments have the expected types. *)
Lemma param_check_fails_iff (a b c d : pyval) :
  param_check_fails a b c d = true
  <-> isinstance_int_float a = false /\ isinstance_int_float b = true
      /\ isinstance_int c = true /\ isinstance_int d = true.
Proof.
  unfold param_check_fails.
  destruct (isinstance_int_float a), (isinstance_int_float b),
    (isinstance_int c), (isinstance_int d); simpl; intuition congruence.
Qed.

End ResultClaims.

(** * Concrete runs *)

(** The turn of the witness of C2: a count of 3 out of a cap of 20 at the
    starting precision. *)
Lemma precision_follows_yield_table_witness :
  let w := @mkWorld scripted_db (scripted [3] []) [] in
  let r := @loop_body ring_geohash scripted_db 1024 20 col_id col_geo ""
                      initial_state w in
  running initial_state = true
  /\ running (fst r) = true
  /\ precision (fst r)
     = table_precision 50
         (fst (@count_query scripted_db (conn w) col_id
                 (@turn_predicate ring_geohash 1024 col_geo "" initial_state)))
         20.
Proof.
  intros w r. split; [reflexivity|]. split; [reflexivity|].
  apply (@precision_follows_yield_table ring_geohash scripted_db 1024 20
           col_id col_geo "" initial_state w); reflexivity.
Defined.

(** A call with the fuel of the budget, on a database that answers 3, 4 and
    then 0. *)
Lemma search_terminates_within_budget_witness :
  (20 <= 20)%nat
  /\ exists o,
      @adaptive_geohash_nearby_search ring_geohash scripted_db 20
        (VFloat 45) (VFloat 9) (VInt 0) (VInt 10) 1%positive
        col_id col_lat col_lon col_geo "" (scripted [3; 4] [1; 2]) ∅ = Some o
      /\ match o with
         | Returned _ _ _ issued => (count_queries issued <= 20)%nat
         | _ => True
         end.
Proof.
  split; [lia|].
  apply (@search_terminates_within_budget ring_geohash scripted_db 20
           (VFloat 45) (VFloat 9) (VInt 0) (VInt 10) 1%positive
           col_id col_lat col_lon col_geo "" (scripted [3; 4] [1; 2]) ∅).
  lia.
Defined.

(** A call on a geohash library whose expansion is empty. *)
Lemma empty_expansion_falls_back_witness :
  typed_args (VFloat 45) (VFloat 9) (VInt 0) (VInt 10) 45 9 0 10
  /\ @expand_uint64 empty_geohash (@encode_uint64 empty_geohash 45 9) 50 = []
  /\ (1 <= 20)%nat
  /\ @adaptive_geohash_nearby_search empty_geohash scripted_db 20
       (VFloat 45) (VFloat 9) (VInt 0) (VInt 10) 1%positive
       col_id col_lat col_lon col_geo "" (scripted [5] [1; 2]) ∅
     = Some (Returned None (add_coordinate_columns ∅ 1%positive col_lat col_lon)
                      (scripted [5] [1; 2]) []).
Proof.
  assert (Ht : typed_args (VFloat 45) (VFloat 9) (VInt 0) (VInt 10) 45 9 0 10)
    by (repeat split).
  split; [exact Ht|]. split; [reflexivity|]. split; [lia|].
  apply (@empty_expansion_falls_back empty_geohash scripted_db 20
           (VFloat 45) (VFloat 9) (VInt 0) (VInt 10) 1%positive
           col_id col_lat col_lon col_geo "" (scripted [5] [1; 2]) ∅
           45%R 9%R 0 10 Ht);
    [reflexivity|lia].
Defined.

(** C1, as stated, fails: the twentieth count is below the nineteen before
    it, and the call falls back without a fetch. *)
Lemma regression_at_last_turn_falls_back :
  let db := scripted (app (repeat 10 19%nat) [9]) [1; 2; 3] in
  let r := @iterate ring_geohash scripted_db 1024 20 col_id col_geo "" 19
                    initial_state (@mkWorld scripted_db db []) in
  running (fst r) = true
  /\ fst (@count_query scripted_db (conn (snd r)) col_id
            (@turn_predicate ring_geohash 1024 col_geo "" (fst r)))
     < previous_result_size (fst r)
  /\ @adaptive_geohash_nearby_search ring_geohash scripted_db 20
       (VFloat 45) (VFloat 9) (VInt 0) (VInt 10) 1%positive
       col_id col_lat col_lon col_geo "" db ∅
     = Some (Returned None
               (add_coordinate_columns ∅ 1%positive col_lat col_lon)
               (scripted [] [1; 2; 3])
               (repeat (QCount col_id "((geo>=16 AND geo<32))") 20)).
Proof. repeat split. Defined.

(** A call whose second count, 6, is below the first, 7. *)
Lemma regression_reverts_to_previous_predicate_witness :
  let db := scripted [7; 6] [1; 2; 3] in
  let r := @iterate ring_geohash scripted_db 1024 20 col_id col_geo "" 1
                    initial_state (@mkWorld scripted_db db []) in
  let cols := [col_lat; col_lon] in
  typed_args (VFloat 45) (VFloat 9) (VInt 0) (VInt 10) 45 9 0 10
  /\ running (fst r) = true
  /\ fst (@count_query scripted_db (conn (snd r)) col_id
            (@turn_predicate ring_geohash 1024 col_geo "" (fst r)))
     < previous_result_size (fst r)
  /\ loop_count (fst r) + 1 < MAX_DB_HITS
  /\ exists s' w',
      @while_loop ring_geohash scripted_db 1024 20 col_id col_geo "" 20
                  initial_state (@mkWorld scripted_db db []) = Some (s', w')
      /\ stop s' = true /\ fall_back s' = false
      /\ where_clause s' = previous_where_clause (fst r)
      /\ @adaptive_geohash_nearby_search ring_geohash scripted_db 20
           (VFloat 45) (VFloat 9) (VInt 0) (VInt 10) 1%positive
           col_id col_lat col_lon col_geo "" db ∅
         = Some (Returned
                   (Some (@materialize scripted_db 45 9 0 10 col_lat col_lon
                            [1; 2; 3]))
                   (add_coordinate_columns ∅ 1%positive col_lat col_lon)
                   (scripted [] [1; 2; 3])
                   (app (queries w')
                        [QFetch cols (previous_where_clause (fst r))])).
Proof.
  intros db r cols.
  assert (Ht : typed_args (VFloat 45) (VFloat 9) (VInt 0) (VInt 10) 45 9 0 10)
    by (repeat split).
  split; [exact Ht|]. split; [reflexivity|]. split; [reflexivity|].
  split; [reflexivity|].
  assert (Hwc : @get_geohash_where_clause ring_geohash
                  (@encode_uint64 ring_geohash 45 9) (precision (fst r))
                  (name col_geo) <> "") by (vm_compute; discriminate).
  destruct (@regression_reverts_to_previous_predicate ring_geohash scripted_db
              20 (VFloat 45) (VFloat 9) (VInt 0) (VInt 10) 1%positive
              col_id col_lat col_lon col_geo "" db ∅ 45%R 9%R 0 10 1%nat
              (fst r) (snd r) Ht eq_refl eq_refl Hwc eq_refl eq_refl
              (le_n 20))
    as (s' & w' & El & Hs & Hf & Hw & Hc).
  exists s', w'.
  assert (Ew : conn w' = scripted [] [1; 2; 3])
    by (vm_compute in El; injection El as _ <-; reflexivity).
  rewrite Ew in Hc.
  repeat split; assumption.
Defined.

(** A call at the point (0, 0) whose fetch returns the row at one degree
    before the row at the point itself: the rows come back in the other
    order, the nearer one first. *)
Lemma returned_rows_sorted_slice_witness :
  @adaptive_geohash_nearby_search ring_geohash scripted_db 20
    (VFloat 0) (VFloat 0) (VInt 0) (VInt 10) 1%positive
    col_id col_lat col_lon col_geo "" (scripted [25] [1; 0]) ∅
  = Some (Returned (Some (scripted_rows [0; 1]))
            (add_coordinate_columns ∅ 1%positive col_lat col_lon)
            (scripted [] [1; 0])
            [QCount col_id "((geo>=16 AND geo<32))";
             QFetch [col_lat; col_lon] "((geo>=16 AND geo<32))"])
  /\ (distance 0 0 (@row_value scripted_db (scripted_row 0) col_lat)
               (@row_value scripted_db (scripted_row 0) col_lon)
      < distance 0 0 (@row_value scripted_db (scripted_row 1) col_lat)
                 (@row_value scripted_db (scripted_row 1) col_lon))%R
  /\ exists lat lon : R,
      as_number (VFloat 0) = Some lat /\ as_number (VFloat 0) = Some lon
      /\ StronglySorted
           (fun r1 r2 : @Row scripted_db =>
              (distance lat lon (@row_value scripted_db r1 col_lat)
                        (@row_value scripted_db r1 col_lon)
               <= distance lat lon (@row_value scripted_db r2 col_lat)
                           (@row_value scripted_db r2 col_lon))%R)
           (scripted_rows [0; 1]).
Proof.
  assert (Hd0 : @row_distance scripted_db 0 0 col_lat col_lon (scripted_row 0) = 0%R)
    by apply distance_same_point.
  assert (Hd1 : (0 < @row_distance scripted_db 0 0 col_lat col_lon (scripted_row 1))%R)
    by apply distance_one_degree_positive.
  assert (Hlt : (@row_distance scripted_db 0 0 col_lat col_lon (scripted_row 0)
                 < @row_distance scripted_db 0 0 col_lat col_lon
                                 (scripted_row 1))%R)
    by (rewrite Hd0; exact Hd1).
  assert (Hm : @materialize scripted_db 0 0 0 10 col_lat col_lon [1; 0]
               = scripted_rows [0; 1]).
  { unfold materialize, ranked_rows, scored, sorted_by_key.
    cbn [map fold_right insert_by_key snd].
    match goal with
    | |- context [Rltb ?x ?y] =>
        replace (Rltb x y) with true
          by (symmetry; apply Rltb_true; exact Hlt)
    end.
    reflexivity. }
  assert (E : @adaptive_geohash_nearby_search ring_geohash scripted_db 20
                (VFloat 0) (VFloat 0) (VInt 0) (VInt 10) 1%positive
                col_id col_lat col_lon col_geo "" (scripted [25] [1; 0]) ∅
              = Some (Returned (Some (scripted_rows [0; 1]))
                        (add_coordinate_columns ∅ 1%positive col_lat col_lon)
                        (scripted [] [1; 0])
                        [QCount col_id "((geo>=16 AND geo<32))";
                         QFetch [col_lat; col_lon] "((geo>=16 AND geo<32))"])).
  { rewrite <- Hm. reflexivity. }
  split; [exact E|]. split.
  - exact Hlt.
  - destruct (returned_rows_sorted_slice _ _ _ _ _ _ _ _ _ _ _ _ _ _ _ _ _ E)
      as (lat & lon & lc & uc & s & w & (Hla & Hlo & _) & _ & Hsorted).
    exists lat, lon. repeat split; try assumption. apply Hsorted.
Defined.



(** A call whose list of columns holds neither the latitude column nor the
    longitude column. *)
Lemma select_cols_mutated_in_place_witness :
  let h : gmap loc (list Column) := {[ 1%positive := [col_id] ]} in
  let h' := add_coordinate_columns h 1%positive col_lat col_lon in
  @adaptive_geohash_nearby_search empty_geohash scripted_db 20
    (VFloat 45) (VFloat 9) (VInt 0) (VInt 10) 1%positive
    col_id col_lat col_lon col_geo "" (scripted [5] [1; 2]) h
  = Some (Returned None h' (scripted [5] [1; 2]) [])
  /\ list_contents h' 1%positive = [col_id; col_lat; col_lon].
Proof.
  intros h h'.
  assert (E : @adaptive_geohash_nearby_search empty_geohash scripted_db 20
                (VFloat 45) (VFloat 9) (VInt 0) (VInt 10) 1%positive
                col_id col_lat col_lon col_geo "" (scripted [5] [1; 2]) h
              = Some (Returned None h' (scripted [5] [1; 2]) []))
    by reflexivity.
  split; [exact E|].
  destruct (select_cols_mutated_in_place _ _ _ _ _ _ _ _ _ _ _ _ _ _ _ _ _ E)
    as (Hnew & _).
  rewrite Hnew. reflexivity.
Defined.

(** * Further properties *)

(** ** Distance *)

Lemma atan2_quadrant (y x : R) :
  (0 <= y)%R -> (0 <= x)%R -> (0 <= atan2 y x <= PI / 2)%R.
Proof.
  intros Hy Hx. unfold atan2, Rltb.
  pose proof PI_RGT_0 as Hpi.
  destruct (Rlt_dec 0 x) as [Hpos|Hnpos].
  - pose proof (atan_bound (y / x)) as [_ Hub].
    assert (Hq : (0 <= y / x)%R).
    { apply Rmult_le_pos; [assumption|]. left. now apply Rinv_0_lt_compat. }
    destruct Hq as [Hq|<-].
    + apply atan_increasing in Hq. rewrite atan_0 in Hq. lra.
    + rewrite atan_0. lra.
  - destruct (Rlt_dec x 0); [lra|].
    destruct (Rlt_dec 0 y); [lra|].
    destruct (Rlt_dec y 0); lra.
Qed.

(** X2: a distance is never negative and never more than half the
    circumference of the sphere. *)
Theorem distance_bounds (lat1 long1 lat2 long2 : R) :
  (0 <= distance lat1 long1 lat2 long2 <= EQUATORIAL_R * PI)%R.
Proof.
  pose proof PI_RGT_0 as Hpi.
  assert (HR : (0 < EQUATORIAL_R)%R) by (unfold EQUATORIAL_R; lra).
  unfold distance.
  destruct (Reqb lat1 lat2 && Reqb long1 long2).
  - nra.
  - cbv zeta.
    match goal with
    | |- context [atan2 (sqrt ?a) (sqrt ?b)] =>
        pose proof (atan2_quadrant (sqrt a) (sqrt b) (sqrt_pos _) (sqrt_pos _))
          as Hb
    end.
    nra.
Qed.

(** ** The loop, further *)

Lemma adjust_precision_range (precision result_size max_result_cap : Z) :
  Z.max 0 (precision - 8)
  <= adjust_precision precision result_size max_result_cap
  <= Z.max 0 (precision - 1).
Proof.
  unfold adjust_precision.
  repeat match goal with
         | |- context [?a <=? ?b] => destruct (Z.leb_spec a b)
         | |- context [if ?b then _ else _] => destruct b
         end; lia.
Qed.

(** X3: a turn coarsens the precision by at least one bit and at most eight,
    and never below zero. *)
Theorem adjust_precision_bounds (precision result_size max_result_cap : Z) :
  Z.max 0 (precision - 8)
  <= adjust_precision precision result_size max_result_cap
  <= Z.max 0 (precision - 1).
Proof. apply adjust_precision_range. Qed.

Lemma append_empty_r (s : string) : s ++ "" = s.
Proof.
  induction s as [|c s IH]; [reflexivity|].
  change (String c (s ++ "") = String c s). now rewrite IH.
Qed.

Section ControllerMore.
Context `{Geohash} `{Database}.
Variables (coord_geoint max_result_cap : Z).
Variables (count_col geoint_col : Column) (custom_where_clause : string).

Local Abbreviation body := (loop_body coord_geoint max_result_cap count_col
                                  geoint_col custom_where_clause).
Local Abbreviation loop := (while_loop coord_geoint max_result_cap count_col
                                   geoint_col custom_where_clause).
Local Abbreviation iter := (iterate coord_geoint max_result_cap count_col
                                geoint_col custom_where_clause).
Local Abbreviation turn_pred :=
  (turn_predicate coord_geoint geoint_col custom_where_clause).
Local Abbreviation geo_clause :=
  (get_geohash_where_clause coord_geoint).

Lemma turn_predicate_append (s : SearchState) :
  turn_pred s
  = geo_clause (precision s) (name geoint_col) ++ custom_where_clause.
Proof.
  unfold turn_predicate. cbv zeta.
  destruct custom_where_clause; simpl; [now rewrite append_empty_r|reflexivity].
Qed.


(** The fields that a turn with a count query records. *)
Lemma loop_body_fields (s s' : SearchState) (w w' : World) :
  body s w = (s', w') ->
  geo_clause (precision s) (name geoint_col) <> "" ->
  previous_where_clause s'
  = (if fst (count_query (conn w) count_col (turn_pred s))
        <? previous_result_size s
     then previous_where_clause s else turn_pred s)
  /\ previous_result_size s'
     = (if fst (count_query (conn w) count_col (turn_pred s))
           <? previous_result_size s
        then previous_result_size s
        else fst (count_query (conn w) count_col (turn_pred s)))
  /\ precision s'
     = (if (fst (count_query (conn w) count_col (turn_pred s))
            <? max_result_cap)
           && (MAX_DB_HITS <=? loop_count s + 1)
        then precision s
        else adjust_precision (precision s)
               (fst (count_query (conn w) count_col (turn_pred s)))
               max_result_cap).
Proof.
  unfold loop_body, turn_predicate.
  set (wc := get_geohash_where_clause coord_geoint (precision s)
                                      (name geoint_col)).
  intros E Hwc.
  destruct (String.length wc =? 0)%nat eqn:El.
  - apply Nat.eqb_eq in El. destruct wc; [contradiction|discriminate El].
  - set (wc1 := if (0 <? String.length custom_where_clause)%nat
                then wc ++ custom_where_clause else wc) in *.
    destruct (execute_count w count_col wc1) as [n w1] eqn:Ec.
    apply execute_count_queries in Ec as (_ & En & _).
    rewrite <- En.
    destruct ((n <? max_result_cap) && (MAX_DB_HITS <=? loop_count s + 1));
      inversion E; subst; simpl; auto.
Qed.

(** The fields that a turn without a count query leaves as they are. *)
Lemma loop_body_empty (s s' : SearchState) (w w' : World) :
  body s w = (s', w') ->
  geo_clause (precision s) (name geoint_col) = "" ->
  precision s' = precision s
  /\ previous_where_clause s' = previous_where_clause s
  /\ previous_result_size s' = previous_result_size s
  /\ where_clause s' = "".
Proof.
  unfold loop_body. intros E Hwc. rewrite Hwc in E. simpl in E.
  inversion E; subst; simpl; auto.
Qed.

Lemma while_loop_preserves (P : SearchState -> World -> Prop) :
  (forall s w s' w',
      P s w -> running s = true -> body s w = (s', w') -> P s' w') ->
  forall (fuel : nat) (s : SearchState) (w : World) (s' : SearchState)
         (w' : World),
    P s w -> loop fuel s w = Some (s', w') -> P s' w'.
Proof.
  intros Hstep. induction fuel as [|fuel IH]; intros s w s' w' HP E;
    simpl in E; destruct (running s) eqn:Hr; try discriminate;
    try (inversion E; subst; assumption).
  destruct (body s w) as [s1 w1] eqn:Eb.
  eapply IH; [|exact E]. eapply Hstep; eassumption.
Qed.

Lemma iterate_preserves (P : SearchState -> World -> Prop) :
  (forall s w s' w',
      P s w -> running s = true -> body s w = (s', w') -> P s' w') ->
  forall (n : nat) (s : SearchState) (w : World),
    P s w -> P (fst (iter n s w)) (snd (iter n s w)).
Proof.
  intros Hstep. induction n as [|n IH]; intros s w HP; simpl; [assumption|].
  destruct (running s) eqn:Hr; [|assumption].
  destruct (body s w) as [s1 w1] eqn:Eb.
  apply IH. eapply Hstep; eassumption.
Qed.

Lemma initial_run_invariant (db : DB) :
  run_invariant coord_geoint count_col geoint_col custom_where_clause
                initial_state {| conn := db; queries := [] |}.
Proof.
  unfold run_invariant; simpl.
  repeat split; try lia; auto; intros; discriminate.
Qed.

Lemma loop_body_run_invariant (s s' : SearchState) (w w' : World) :
  run_invariant coord_geoint count_col geoint_col custom_where_clause s w ->
  running s = true -> body s w = (s', w') ->
  run_invariant coord_geoint count_col geoint_col custom_where_clause s' w'.
Proof.
  intros (Hp & Hl & Hpl & Hq & Hs & Hrec) Hr E.
  apply running_true in Hr as Hsf. destruct Hsf as [Hs0 Hf0].
  specialize (Hpl Hf0).
  pose proof E as Hcases.
  apply loop_body_cases in Hcases
    as [(Hempty & -> & Hs' & Hf' & Hl')
       |(Hne & Hq' & _ & Hl' & Hfb & Hstop & _ & Hadj)].
  - apply (loop_body_empty _ _ _ _ E) in Hempty as (Ep & Epw & Eps & _).
    unfold run_invariant. rewrite Ep, Epw, Eps, Hl', Hf'.
    repeat split; try lia; try assumption; auto; intros; discriminate.
  - destruct (loop_body_fields _ _ _ _ E Hne) as (Epw & Eps & Ep).
    pose proof (adjust_precision_range (precision s)
                  (fst (count_query (conn w) count_col (turn_pred s)))
                  max_result_cap) as Hrange.
    unfold run_invariant. rewrite Hl', Hq'.
    assert (Hprec : 0 <= precision s' <= 50).
    { rewrite Ep. destruct (_ && _); lia. }
    repeat split; try lia.
    + intros Hf1. rewrite (Hadj Hf1). lia.
    + apply Forall_app. split; [assumption|]. constructor; [|constructor].
      exists (precision s). rewrite <- turn_predicate_append. auto.
    + rewrite Epw.
      destruct (fst (count_query (conn w) count_col (turn_pred s))
                <? previous_result_size s) eqn:Ereg.
      * rewrite Eps. destruct Hrec as [Hrec|Hrec]; [left; exact Hrec|].
        right. apply in_or_app. now left.
      * right. apply in_or_app. right. now left.
Qed.


Lemma while_loop_stops (fuel : nat) :
  forall (s : SearchState) (w : World) (s' : SearchState) (w' : World),
    loop fuel s w = Some (s', w') -> running s' = false.
Proof.
  induction fuel as [|fuel IH]; intros s w s' w' E; simpl in E;
    destruct (running s) eqn:Hr; try discriminate;
    try (inversion E; subst; assumption).
  destruct (body s w) as [s1 w1]. eapply IH; exact E.
Qed.

Lemma iterate_succ_r (n : nat) :
  forall (s : SearchState) (w : World),
    iter (S n) s w
    = if running (fst (iter n s w))
      then body (fst (iter n s w)) (snd (iter n s w))
      else iter n s w.
Proof.
  induction n as [|n IH]; intros s w.
  - simpl. destruct (running s); [|reflexivity]. now destruct (body s w).
  - change (iter (S (S n)) s w)
      with (if running s
            then let (s', w') := body s w in iter (S n) s' w'
            else (s, w)).
    change (iter (S n) s w)
      with (if running s
            then let (s', w') := body s w in iter n s' w'
            else (s, w)).
    destruct (running s) eqn:Hr.
    + destruct (body s w) as [s1 w1]. apply IH.
    + simpl. rewrite Hr. reflexivity.
Qed.

(** The turn that stops the loop gives its result, with the fuel of the
    budget. *)
Lemma while_loop_reaches (fuel n : nat) (db : DB) (s s1 : SearchState)
    (w w1 : World) :
  iter n initial_state {| conn := db; queries := [] |} = (s, w) ->
  running s = true -> body s w = (s1, w1) -> running s1 = false ->
  (20 <= fuel)%nat ->
  loop fuel initial_state {| conn := db; queries := [] |} = Some (s1, w1).
Proof.
  intros Hit Hr Eb Hr1 Hfuel.
  assert (E1 : loop (n + 1) initial_state {| conn := db; queries := [] |}
               = Some (s1, w1)).
  { rewrite while_loop_iterate by (rewrite Hit; exact Hr).
    rewrite Hit. simpl. now rewrite Hr, Eb, Hr1. }
  destruct (search_loop_total coord_geoint max_result_cap count_col geoint_col
              custom_where_clause db fuel Hfuel) as (s' & w' & E & _).
  pose proof (while_loop_fuel_mono _ _ _ _ _ _ (Nat.max fuel (n + 1)) _ _ _
                E (Nat.le_max_l _ _)) as Ea.
  pose proof (while_loop_fuel_mono _ _ _ _ _ _ (Nat.max fuel (n + 1)) _ _ _
                E1 (Nat.le_max_r _ _)) as Eb'.
  congruence.
Qed.

Lemma loop_body_precision_bound (s s' : SearchState) (w w' : World) :
  running s = true -> body s w = (s', w') ->
  precision s <= Z.max 0 (50 - loop_count s) ->
  precision s'
  <= Z.max 0 (50 - loop_count s') + (if fall_back s' then 1 else 0).
Proof.
  intros Hr E Hb. pose proof E as Hcases.
  apply loop_body_cases in Hcases
    as [(Hempty & _ & _ & Hf' & Hl')|(Hne & _ & _ & Hl' & Hfb & _ & _ & Hadj)].
  - apply (loop_body_empty _ _ _ _ E) in Hempty as (Ep & _).
    rewrite Ep, Hl', Hf'. lia.
  - destruct (loop_body_fields _ _ _ _ E Hne) as (_ & _ & Ep).
    rewrite Hl'.
    pose proof (adjust_precision_range (precision s)
                  (fst (count_query (conn w) count_col (turn_pred s)))
                  max_result_cap) as Hrange.
    destruct (fall_back s') eqn:Hf1.
    + rewrite Ep. destruct (_ && _); lia.
    + rewrite (Hadj eq_refl). lia.
Qed.

(** X4: the precision with which the expansion is asked stays between 0 and
    50, inside the range of 0 to 64 that [get_geohash_where_clause]
    documents, and after [k] count queries it is at most [50 - k] (one more
    in the state of a fallback). *)
Theorem precision_stays_in_range (db : DB) (n : nat) :
  0 <= precision (fst (iter n initial_state {| conn := db; queries := [] |}))
    <= 50
  /\ precision (fst (iter n initial_state {| conn := db; queries := [] |}))
     <= Z.max 0
          (50 - loop_count
                  (fst (iter n initial_state {| conn := db; queries := [] |})))
        + (if fall_back
                (fst (iter n initial_state {| conn := db; queries := [] |}))
           then 1 else 0).
Proof.
  pose proof (iterate_preserves
                (fun s w =>
                   run_invariant coord_geoint count_col geoint_col
                                 custom_where_clause s w
                   /\ precision s
                      <= Z.max 0 (50 - loop_count s)
                         + (if fall_back s then 1 else 0))) as Hind.
  destruct (Hind
              ltac:(intros s w s' w' [Hinv _] Hr E; split;
                    [eapply loop_body_run_invariant; eassumption|];
                    destruct Hinv as (_ & _ & Hpl & _);
                    apply running_true in Hr as Hsf; destruct Hsf as [_ Hf0];
                    eapply loop_body_precision_bound; eauto)
              n initial_state {| conn := db; queries := [] |}
              ltac:(split; [apply initial_run_invariant|simpl; lia]))
    as [(Hp & _) Hb].
  split; assumption.
Qed.

End ControllerMore.

(** ** The predicate builder, further *)

(** X5: the predicate is empty exactly when no range has a bound that the
    truth test of the code accepts; in particular for no range at all. *)
Theorem where_clause_empty_iff (column : string) (ranges : list bound_range) :
  where_clause_of_ranges column ranges = ""
  <-> Forall (fun r => truthy (fst r) = false /\ truthy (snd r) = false) ranges.
Proof.
  rewrite where_clause_of_ranges_spec. unfold build_predicate, emitted_clauses.
  split.
  - intros E.
    assert (Hnil : flat_map (range_clause truthy column) ranges = [])
      by (destruct (flat_map _ ranges); [reflexivity|discriminate E]).
    clear E. induction ranges as [|r ranges IH]; constructor.
    + simpl in Hnil. apply app_eq_nil in Hnil as [Hr _].
      unfold range_clause in Hr.
      destruct (truthy (fst r)), (truthy (snd r)); try discriminate; auto.
    + apply IH. simpl in Hnil. now apply app_eq_nil in Hnil as [_ ?].
  - intros Hall.
    assert (Hnil : flat_map (range_clause truthy column) ranges = []).
    { induction Hall as [|r ranges [H1 H2] _ IH]; [reflexivity|].
      simpl. rewrite IH. unfold range_clause. now rewrite H1, H2. }
    now rewrite Hnil.
Qed.

(** ** Pages *)

(** X6: consecutive pages tile the ranked rows: for the same fetched rows,
    the page from [i] to [k] followed by the page from [k] to [m] is the
    page from [i] to [m]. *)
Theorem pages_compose `{Database} (lat lon : R) (lat_col lon_col : Column)
    (data : list Row) (i k m : Z) :
  0 <= i <= k -> k <= m ->
  app (materialize lat lon i k lat_col lon_col data)
      (materialize lat lon k m lat_col lon_col data)
  = materialize lat lon i m lat_col lon_col data.
Proof.
  intros Hik Hkm. unfold materialize.
  rewrite !py_slice_nonneg by lia.
  set (l := ranked_rows lat lon lat_col lon_col data).
  replace (Z.to_nat k) with (Z.to_nat i + Z.to_nat (k - i))%nat by lia.
  rewrite <- drop_drop.
  replace (Z.to_nat (m - i)) with (Z.to_nat (k - i) + Z.to_nat (m - k))%nat
    by lia.
  apply take_take_drop.
Qed.

(** ** Calls, further *)

Lemma add_coordinate_columns_has (h : gmap loc (list Column)) (select_cols : loc)
    (lat_col lon_col : Column) :
  lat_col ∈ list_contents (add_coordinate_columns h select_cols lat_col lon_col)
                          select_cols
  /\ lon_col ∈ list_contents
                 (add_coordinate_columns h select_cols lat_col lon_col)
                 select_cols.
Proof.
  unfold add_coordinate_columns.
  rewrite (list_in_decide h lat_col select_cols).
  destruct (decide (lat_col ∈ list_contents h select_cols)) as [Hlat|Hlat];
    simpl negb; cbv iota.
  - rewrite (list_in_decide h lon_col select_cols).
    destruct (decide (lon_col ∈ list_contents h select_cols)) as [Hlon|Hlon];
      simpl negb; cbv iota; [auto|].
    rewrite list_contents_append. split; apply elem_of_app; [now left|].
    right. apply list_elem_of_singleton. reflexivity.
  - rewrite (list_in_decide _ lon_col select_cols), list_contents_append.
    assert (Hin : lat_col ∈ app (list_contents h select_cols) [lat_col])
      by (apply elem_of_app; right; apply list_elem_of_singleton; reflexivity).
    destruct (decide (lon_col ∈ app (list_contents h select_cols) [lat_col]))
      as [Hlon|Hlon]; simpl negb; cbv iota.
    + rewrite list_contents_append. auto.
    + rewrite !list_contents_append. split; apply elem_of_app.
      * now left.
      * right. apply list_elem_of_singleton. reflexivity.
Qed.

Lemma add_coordinate_columns_idem (h : gmap loc (list Column))
    (select_cols : loc) (lat_col lon_col : Column) :
  add_coordinate_columns
    (add_coordinate_columns h select_cols lat_col lon_col)
    select_cols lat_col lon_col
  = add_coordinate_columns h select_cols lat_col lon_col.
Proof.
  destruct (add_coordinate_columns_has h select_cols lat_col lon_col)
    as [Hlat Hlon].
  set (h1 := add_coordinate_columns h select_cols lat_col lon_col) in *.
  unfold add_coordinate_columns at 1.
  rewrite (list_in_decide h1 lat_col select_cols).
  rewrite decide_True by assumption. simpl negb. cbv iota.
  rewrite (list_in_decide h1 lon_col select_cols).
  now rewrite decide_True by assumption.
Qed.

Lemma no_fetch_all_counts (qs : list Query) :
  fetch_queries qs = 0%nat ->
  Forall (fun q => is_count q = true) qs /\ count_queries qs = length qs.
Proof.
  unfold fetch_queries, count_queries.
  induction qs as [|q qs IH]; simpl; [auto|].
  destruct q; simpl; [|discriminate].
  intros E. destruct (IH E) as [Hall Hlen]. split; [constructor; auto|lia].
Qed.

Section MoreClaims.
Context `{Geohash} `{Database}.
Variables (fuel : nat) (latitude longitude lower_cut upper_cut : pyval).
Variables (select_cols : loc) (count_col lat_col lon_col geoint_col : Column).
Variables (custom_where_clause : string) (db : DB) (h : gmap loc (list Column)).

Local Abbreviation call :=
  (adaptive_geohash_nearby_search fuel latitude longitude lower_cut upper_cut
     select_cols count_col lat_col lon_col geoint_col custom_where_clause db h).
Local Abbreviation cols :=
  (list_contents (add_coordinate_columns h select_cols lat_col lon_col)
                 select_cols).

(** The run behind a call that returns. *)
Lemma returned_run (value : option (list Row)) (h' : gmap loc (list Column))
    (db' : DB) (issued : list Query) :
  call = Some (Returned value h' db' issued) ->
  exists lat lon lc uc s w,
    typed_args latitude longitude lower_cut upper_cut lat lon lc uc
    /\ h' = add_coordinate_columns h select_cols lat_col lon_col
    /\ while_loop (encode_uint64 lat lon) (Z.max uc 20) count_col geoint_col
                  custom_where_clause fuel initial_state
                  {| conn := db; queries := [] |} = Some (s, w)
    /\ ((fall_back s = true /\ value = None /\ issued = queries w
         /\ db' = conn w)
        \/ (fall_back s = false
            /\ value = Some (materialize lat lon lc uc lat_col lon_col
                               (fst (fetch_query (conn w) cols
                                                 (where_clause s))))
            /\ issued = app (queries w) [QFetch cols (where_clause s)]
            /\ db' = snd (fetch_query (conn w) cols (where_clause s)))).
Proof.
  intros E.
  apply adaptive_returned in E
    as (lat & lon & lc & uc & w' & Ht & -> & Es & -> & ->).
  exists lat, lon, lc, uc.
  destruct (while_loop (encode_uint64 lat lon) (Z.max uc 20) count_col geoint_col
                       custom_where_clause fuel initial_state
                       {| conn := db; queries := [] |}) as [[s w]|] eqn:El.
  - exists s, w.
    rewrite (search_after_loop _ _ _ lc _ cols _ lat_col lon_col _ _ _ _ _ El)
      in Es.
    split; [assumption|]. split; [reflexivity|]. split; [reflexivity|].
    destruct (fall_back s); inversion Es; subst; simpl; [left|right]; auto.
  - unfold search in Es. rewrite El in Es. discriminate.
Qed.

(** What holds of the state and of the queries when the loop is left. *)
Lemma final_state_facts (coord_geoint max_result_cap : Z) (s : SearchState)
    (w : World) :
  while_loop coord_geoint max_result_cap count_col geoint_col
             custom_where_clause fuel initial_state
             {| conn := db; queries := [] |} = Some (s, w) ->
  loop_invariant s w
  /\ run_invariant coord_geoint count_col geoint_col custom_where_clause s w
  /\ running s = false.
Proof.
  intros E. split; [|split].
  - revert E. apply while_loop_preserves; [|apply initial_invariant].
    intros; eapply loop_body_invariant; eassumption.
  - revert E.
    apply (while_loop_preserves coord_geoint max_result_cap count_col geoint_col
             custom_where_clause
             (run_invariant coord_geoint count_col geoint_col
                            custom_where_clause));
      [|apply initial_run_invariant].
    intros; eapply loop_body_run_invariant; eassumption.
  - eapply while_loop_stops; exact E.
Qed.

(** X7: [InvalidParamException] is raised exactly when the latitude is not
    a number while the longitude is one and both cuts are integers. *)
Theorem invalid_param_iff :
  call = Some Raised_InvalidParamException
  <-> isinstance_int_float latitude = false
      /\ isinstance_int_float longitude = true
      /\ isinstance_int lower_cut = true /\ isinstance_int upper_cut = true.
Proof.
  rewrite <- param_check_fails_iff.
  unfold adaptive_geohash_nearby_search.
  destruct (param_check_fails latitude longitude lower_cut upper_cut);
    [tauto|].
  split; [|discriminate].
  destruct (as_number latitude), (as_number longitude), (as_int lower_cut),
    (as_int upper_cut); try discriminate.
  destruct (search _ _ _ _ _ _ _ _ _ _ _ _) as [[? ?]|]; discriminate.
Qed.

(** X8: a call that returns has issued between 0 and 20 count queries and
    then, when it returns rows, exactly one fetch query, the last one, after
    at least one count query; a fallback has issued no fetch query.  The
    fetch asks for the columns of the caller's list as the call leaves it,
    which hold the latitude and the longitude columns. *)
Theorem issued_queries_shape (value : option (list Row))
    (h' : gmap loc (list Column)) (db' : DB) (issued : list Query) :
  call = Some (Returned value h' db' issued) ->
  exists counts : list Query,
    Forall (fun q => is_count q = true) counts
    /\ (length counts <= 20)%nat
    /\ ((value = None /\ issued = counts)
        \/ (exists rows wc,
               value = Some rows
               /\ (1 <= length counts)%nat
               /\ issued = app counts
                             [QFetch (list_contents h' select_cols) wc]
               /\ lat_col ∈ list_contents h' select_cols
               /\ lon_col ∈ list_contents h' select_cols)).
Proof.
  intros E.
  apply returned_run in E
    as (lat & lon & lc & uc & s & w & _ & -> & El & Hcase).
  apply final_state_facts in El
    as ((Hlc & _ & Hcnt & Hfetch) & (_ & _ & _ & _ & Hstop & _) & Hrun).
  apply no_fetch_all_counts in Hfetch as [Hall Hlen].
  unfold MAX_DB_HITS in *.
  exists (queries w). split; [assumption|]. split; [lia|].
  destruct Hcase as [(_ & -> & -> & _)|(Hf & -> & -> & _)]; [left; auto|].
  right. eexists _, _. split; [reflexivity|].
  split.
  - apply running_false_stop_or_fall_back in Hrun as [Hs|Hf']; [|congruence].
    destruct (Hstop Hs) as [?|?]; [congruence|lia].
  - split; [reflexivity|]. apply add_coordinate_columns_has.
Qed.

(** X9: every count query of a call that returns counts on [count_col] the
    rows that satisfy the predicate of the expansion at a precision between
    0 and 50, which is not empty, followed by the caller's fragment as it
    is. *)
Theorem count_queries_are_probes (value : option (list Row))
    (h' : gmap loc (list Column)) (db' : DB) (issued : list Query) :
  call = Some (Returned value h' db' issued) ->
  exists lat lon : R,
    as_number latitude = Some lat /\ as_number longitude = Some lon
    /\ Forall (probe (encode_uint64 lat lon) count_col geoint_col
                     custom_where_clause)
              (List.filter is_count issued).
Proof.
  intros E.
  apply returned_run in E
    as (lat & lon & lc & uc & s & w & (Hla & Hlo & _) & _ & El & Hcase).
  apply final_state_facts in El
    as ((_ & _ & _ & Hfetch) & (_ & _ & _ & Hq & _) & _).
  apply no_fetch_all_counts in Hfetch as [Hall _].
  exists lat, lon. split; [assumption|]. split; [assumption|].
  assert (Hsame : List.filter is_count (queries w) = queries w).
  { clear - Hall. induction Hall as [|q qs Hq _ IH]; simpl; [reflexivity|].
    now rewrite Hq, IH. }
  destruct Hcase as [(_ & _ & -> & _)|(_ & _ & -> & _)].
  - now rewrite Hsame.
  - rewrite List.filter_app, Hsame. simpl. now rewrite app_nil_r.
Qed.

End MoreClaims.

Section ScenarioClaims.
Context `{Geohash} `{Database}.
Variables (fuel : nat) (latitude longitude lower_cut upper_cut : pyval).
Variables (select_cols : loc) (count_col lat_col lon_col geoint_col : Column).
Variables (custom_where_clause : string) (db : DB) (h : gmap loc (list Column)).

Local Abbreviation call :=
  (adaptive_geohash_nearby_search fuel latitude longitude lower_cut upper_cut
     select_cols count_col lat_col lon_col geoint_col custom_where_clause db h).
Local Abbreviation cols :=
  (list_contents (add_coordinate_columns h select_cols lat_col lon_col)
                 select_cols).

Lemma loop_body_counted (coord_geoint max_result_cap : Z)
    (s s' : SearchState) (w w' : World) :
  (forall (d : DB) (c : Column) (wc : string), 0 <= fst (count_query d c wc)) ->
  run_invariant coord_geoint count_col geoint_col custom_where_clause s w ->
  running s = true ->
  loop_body coord_geoint max_result_cap count_col geoint_col
            custom_where_clause s w = (s', w') ->
  stop s' = true -> fall_back s' = false ->
  In (QCount count_col (where_clause s')) (queries w').
Proof.
  intros Hnonneg (_ & _ & _ & _ & _ & Hrec) Hr E Hs' Hf'.
  apply loop_body_cases in E
    as [(_ & _ & _ & Hf & _)|(_ & Hq & _ & _ & _ & _ & Hw & _)];
    [congruence|].
  rewrite Hw, Hq. apply in_or_app.
  destruct (_ <? previous_result_size s) eqn:Ereg.
  - apply Z.ltb_lt in Ereg.
    specialize (Hnonneg (conn w) count_col
                  (turn_predicate coord_geoint geoint_col custom_where_clause s)).
    destruct Hrec as [[_ Hzero]|Hin]; [lia|now left].
  - right. now left.
Qed.

(** X10: when the database never answers a negative count, the rows that a
    call returns are fetched with a predicate that one of its count queries
    has counted. *)
Theorem fetch_predicate_was_counted (rows : list Row)
    (h' : gmap loc (list Column)) (db' : DB) (issued : list Query) :
  (forall (d : DB) (c : Column) (wc : string), 0 <= fst (count_query d c wc)) ->
  call = Some (Returned (Some rows) h' db' issued) ->
  exists (counts : list Query) (wc : string),
    issued = app counts [QFetch (list_contents h' select_cols) wc]
    /\ In (QCount count_col wc) counts.
Proof.
  intros Hnonneg E.
  apply returned_run in E
    as (lat & lon & lc & uc & s & w & _ & -> & El & Hcase).
  destruct Hcase as [(_ & Hv & _)|(Hf & _ & -> & _)]; [discriminate|].
  exists (queries w), (where_clause s). split; [reflexivity|].
  pose proof (while_loop_stops _ _ _ _ _ _ _ _ _ _ El) as Hrun.
  apply running_false_stop_or_fall_back in Hrun as [Hs|?]; [|congruence].
  revert Hs Hf.
  pose proof (while_loop_preserves (encode_uint64 lat lon) (Z.max uc 20)
                count_col geoint_col custom_where_clause
                (fun s w =>
                   run_invariant (encode_uint64 lat lon) count_col geoint_col
                                 custom_where_clause s w
                   /\ (stop s = true -> fall_back s = false ->
                       In (QCount count_col (where_clause s)) (queries w))))
    as Hind.
  refine (proj2 (Hind _ fuel initial_state {| conn := db; queries := [] |}
                      s w _ El)).
  - intros s0 w0 s1 w1 [Hinv _] Hr Eb. split.
    + eapply loop_body_run_invariant; eassumption.
    + eapply loop_body_counted; eassumption.
  - split; [apply initial_run_invariant|]. intros; discriminate.
Qed.

(** X11: when the first count reaches the cap, the call issues this one
    count query and then fetches with the very same predicate, the predicate
    of the expansion at precision 50 followed by the caller's fragment, and
    returns the page of the rows fetched. *)
Theorem dense_data_converges_at_once (lat lon : R) (lc uc : Z) :
  typed_args latitude longitude lower_cut upper_cut lat lon lc uc ->
  get_geohash_where_clause (encode_uint64 lat lon) 50 (name geoint_col) <> "" ->
  Z.max uc 20
  <= fst (count_query db count_col
            (get_geohash_where_clause (encode_uint64 lat lon) 50
                                      (name geoint_col)
             ++ custom_where_clause)) ->
  (1 <= fuel)%nat ->
  let wc := get_geohash_where_clause (encode_uint64 lat lon) 50
                                     (name geoint_col)
            ++ custom_where_clause in
  let fetched := fetch_query (snd (count_query db count_col wc)) cols wc in
  call = Some (Returned
                 (Some (materialize lat lon lc uc lat_col lon_col (fst fetched)))
                 (add_coordinate_columns h select_cols lat_col lon_col)
                 (snd fetched)
                 [QCount count_col wc; QFetch cols wc]).
Proof.
  intros Ht Hne Hcap Hfuel. cbv zeta.
  rewrite (adaptive_typed _ _ _ _ _ _ _ _ _ _ _ _ _ _ _ _ _ Ht).
  set (coord := encode_uint64 lat lon) in *.
  set (w0 := {| conn := db; queries := [] |}).
  destruct (loop_body coord (Z.max uc 20) count_col geoint_col
                      custom_where_clause initial_state w0) as [s1 w1] eqn:Eb.
  pose proof Eb as Hcases.
  apply loop_body_cases in Hcases
    as [(Hempty & _)|(_ & Hq & Hconn & _ & Hfb & Hstop & Hw & _)];
    [contradiction|].
  rewrite turn_predicate_append in *. simpl precision in *.
  simpl in Hq, Hconn, Hfb, Hstop, Hw.
  assert (Hf1 : fall_back s1 = false).
  { destruct (fall_back s1); [|reflexivity].
    destruct Hfb as [Hfb _]. destruct (Hfb eq_refl) as [?|[? _]];
      [discriminate|lia]. }
  assert (Hs1 : stop s1 = true) by (apply Hstop; right; right; left; lia).
  assert (Hw1 : where_clause s1
                = get_geohash_where_clause coord 50 (name geoint_col)
                  ++ custom_where_clause).
  { rewrite Hw. destruct (_ <? 0) eqn:Ereg; [|reflexivity].
    apply Z.ltb_lt in Ereg. lia. }
  assert (El : while_loop coord (Z.max uc 20) count_col geoint_col
                          custom_where_clause fuel initial_state w0
               = Some (s1, w1)).
  { destruct fuel as [|fuel']; [lia|].
    simpl. rewrite Eb. apply while_loop_not_running.
    unfold running. now rewrite Hs1. }
  erewrite search_after_loop by exact El.
  now rewrite Hf1, Hw1, Hq, Hconn.
Qed.

(** The turns of a search on a database that always answers [k], below the
    cap, with an expansion that is never empty: nineteen turns leave the
    loop running. *)
Lemma steady_turns (coord_geoint max_result_cap k : Z) (n : nat) :
  (forall (d : DB) (c : Column) (wc : string), fst (count_query d c wc) = k) ->
  0 <= k < max_result_cap ->
  (forall p : Z,
      0 <= p <= 50 ->
      get_geohash_where_clause coord_geoint p (name geoint_col) <> "") ->
  (n <= 19)%nat ->
  let s := fst (iterate coord_geoint max_result_cap count_col geoint_col
                        custom_where_clause n initial_state
                        {| conn := db; queries := [] |}) in
  let w := snd (iterate coord_geoint max_result_cap count_col geoint_col
                        custom_where_clause n initial_state
                        {| conn := db; queries := [] |}) in
  running s = true /\ loop_count s = Z.of_nat n
  /\ previous_result_size s <= k
  /\ run_invariant coord_geoint count_col geoint_col custom_where_clause s w.
Proof.
  intros Hconst Hk Hwide. induction n as [|n IH]; intros Hn.
  - simpl. split; [reflexivity|]. split; [reflexivity|]. split; [lia|].
    apply initial_run_invariant.
  - specialize (IH ltac:(lia)). cbv zeta in IH.
    destruct IH as (Hr & Hl & Hprev & Hinv).
    cbv zeta. rewrite iterate_succ_r, Hr.
    set (sn := fst (iterate coord_geoint max_result_cap count_col geoint_col
                            custom_where_clause n initial_state
                            {| conn := db; queries := [] |})) in *.
    set (wn := snd (iterate coord_geoint max_result_cap count_col geoint_col
                            custom_where_clause n initial_state
                            {| conn := db; queries := [] |})) in *.
    destruct (loop_body coord_geoint max_result_cap count_col geoint_col
                        custom_where_clause sn wn) as [s' w'] eqn:Eb.
    simpl fst. simpl snd.
    pose proof (loop_body_run_invariant _ _ _ _ _ _ _ _ _ Hinv Hr Eb) as Hinv'.
    pose proof Eb as Hcases.
    destruct Hinv as (Hp & _).
    apply loop_body_cases in Hcases
      as [(Hempty & _)|(Hne & _ & _ & Hl' & Hfb & Hstop & _)];
      [now apply Hwide in Hempty|].
    destruct (loop_body_fields _ _ _ _ _ _ _ _ _ Eb Hne) as (_ & Eps & _).
    rewrite Hconst in *. unfold MAX_DB_HITS in *.
    apply running_true in Hr as Hsf. destruct Hsf as [Hs0 Hf0].
    split; [|split; [lia|split; [|exact Hinv']]].
    + apply running_true. split.
      * destruct (stop s') eqn:Es; [|reflexivity].
        destruct Hstop as [Hstop _].
        destruct (Hstop eq_refl) as [?|[?|[?|?]]]; congruence || lia.
      * destruct (fall_back s') eqn:Ef; [|reflexivity].
        destruct Hfb as [Hfb _].
        destruct (Hfb eq_refl) as [?|[_ ?]]; congruence || lia.
    + rewrite Eps. destruct (k <? previous_result_size sn); lia.
Qed.

(** X12: on a database that answers every count query with the same count,
    below the cap, and with an expansion that is never empty, the call uses
    its whole budget: it issues exactly 20 count queries, no fetch query,
    and falls back. *)
Theorem steady_sparse_falls_back (lat lon : R) (lc uc k : Z) :
  typed_args latitude longitude lower_cut upper_cut lat lon lc uc ->
  (forall (d : DB) (c : Column) (wc : string), fst (count_query d c wc) = k) ->
  0 <= k < Z.max uc 20 ->
  (forall p : Z,
      0 <= p <= 50 ->
      get_geohash_where_clause (encode_uint64 lat lon) p (name geoint_col)
      <> "") ->
  (20 <= fuel)%nat ->
  exists (db' : DB) (issued : list Query),
    call = Some (Returned None
                   (add_coordinate_columns h select_cols lat_col lon_col)
                   db' issued)
    /\ count_queries issued = 20%nat /\ fetch_queries issued = 0%nat.
Proof.
  intros Ht Hconst Hk Hwide Hfuel.
  set (coord := encode_uint64 lat lon) in *.
  destruct (steady_turns coord (Z.max uc 20) k 19 Hconst Hk Hwide (le_n 19))
    as (Hr & Hl & Hprev & Hinv).
  set (s19 := fst (iterate coord (Z.max uc 20) count_col geoint_col
                           custom_where_clause 19 initial_state
                           {| conn := db; queries := [] |})) in *.
  set (w19 := snd (iterate coord (Z.max uc 20) count_col geoint_col
                           custom_where_clause 19 initial_state
                           {| conn := db; queries := [] |})) in *.
  destruct (loop_body coord (Z.max uc 20) count_col geoint_col
                      custom_where_clause s19 w19) as [s20 w20] eqn:Eb.
  pose proof Eb as Hcases.
  destruct Hinv as (Hp & _).
  apply loop_body_cases in Hcases
    as [(Hempty & _)|(_ & _ & _ & _ & Hfb & _)];
    [now apply Hwide in Hempty|].
  rewrite Hconst in Hfb. unfold MAX_DB_HITS in Hfb.
  assert (Hf20 : fall_back s20 = true) by (apply Hfb; right; lia).
  assert (El : while_loop coord (Z.max uc 20) count_col geoint_col
                          custom_where_clause fuel initial_state
                          {| conn := db; queries := [] |} = Some (s20, w20)).
  { apply (while_loop_reaches coord (Z.max uc 20) count_col geoint_col
             custom_where_clause fuel 19 db s19 s20 w19 w20);
      try assumption.
    - apply surjective_pairing.
    - unfold running. rewrite Hf20. apply andb_false_r. }
  pose proof (final_state_facts fuel count_col geoint_col custom_where_clause
                db _ _ _ _ El) as ((_ & _ & Hcnt & Hfetch) & _ & _).
  exists (conn w20), (queries w20).
  rewrite (adaptive_typed _ _ _ _ _ _ _ _ _ _ _ _ _ _ _ _ _ Ht).
  fold coord. erewrite search_after_loop by exact El. rewrite Hf20.
  split; [reflexivity|]. split; [|assumption].
  pose proof Eb as Hcases.
  apply loop_body_cases in Hcases
    as [(Hempty & _)|(_ & _ & _ & Hl20 & _)];
    [now apply Hwide in Hempty|].
  lia.
Qed.

(** X13: whenever the expansion is empty at the precision that a turn has
    reached, the call returns the fallback value, and it has issued the
    count queries of the turns before and nothing else. *)
Theorem empty_expansion_at_any_turn (lat lon : R) (lc uc : Z) (n : nat)
    (s : SearchState) (w : World) :
  typed_args latitude longitude lower_cut upper_cut lat lon lc uc ->
  iterate (encode_uint64 lat lon) (Z.max uc 20) count_col geoint_col
          custom_where_clause n initial_state {| conn := db; queries := [] |}
  = (s, w) ->
  running s = true ->
  get_geohash_where_clause (encode_uint64 lat lon) (precision s)
                           (name geoint_col) = "" ->
  (20 <= fuel)%nat ->
  call = Some (Returned None
                 (add_coordinate_columns h select_cols lat_col lon_col)
                 (conn w) (queries w))
  /\ Forall (fun q => is_count q = true) (queries w).
Proof.
  intros Ht Hit Hr Hempty Hfuel.
  set (coord := encode_uint64 lat lon) in *.
  destruct (loop_body coord (Z.max uc 20) count_col geoint_col
                      custom_where_clause s w) as [s1 w1] eqn:Eb.
  pose proof Eb as Hcases.
  apply loop_body_cases in Hcases
    as [(_ & -> & Hs1 & Hf1 & _)|(Hne & _)]; [|contradiction].
  assert (El : while_loop coord (Z.max uc 20) count_col geoint_col
                          custom_where_clause fuel initial_state
                          {| conn := db; queries := [] |} = Some (s1, w)).
  { apply (while_loop_reaches coord (Z.max uc 20) count_col geoint_col
             custom_where_clause fuel n db s s1 w w); try assumption.
    unfold running. now rewrite Hs1. }
  split.
  - rewrite (adaptive_typed _ _ _ _ _ _ _ _ _ _ _ _ _ _ _ _ _ Ht).
    fold coord. erewrite search_after_loop by exact El. now rewrite Hf1.
  - pose proof (final_state_facts fuel count_col geoint_col custom_where_clause
                  db _ _ _ _ El) as ((_ & _ & _ & Hfetch) & _ & _).
    now apply no_fetch_all_counts in Hfetch as [Hall _].
Qed.

(** X14: a second call on the same list of columns leaves it as the first
    call left it: the latitude and longitude columns are added once. *)
Theorem columns_added_once (fuel2 : nat)
    (latitude2 longitude2 lower_cut2 upper_cut2 : pyval)
    (count_col2 geoint_col2 : Column) (custom_where_clause2 : string)
    (db2 : DB) (value1 value2 : option (list Row))
    (h1 h2 : gmap loc (list Column)) (db1' db2' : DB)
    (issued1 issued2 : list Query) :
  call = Some (Returned value1 h1 db1' issued1) ->
  adaptive_geohash_nearby_search fuel2 latitude2 longitude2 lower_cut2
    upper_cut2 select_cols count_col2 lat_col lon_col geoint_col2
    custom_where_clause2 db2 h1
  = Some (Returned value2 h2 db2' issued2) ->
  h2 = h1.
Proof.
  intros E1 E2.
  apply adaptive_returned in E1 as (_ & _ & _ & _ & _ & _ & -> & _).
  apply adaptive_returned in E2 as (_ & _ & _ & _ & _ & _ & -> & _).
  apply add_coordinate_columns_idem.
Qed.

End ScenarioClaims.

(** * Concrete runs, further *)

(** The first two pages of five of three fetched rows. *)
Lemma pages_compose_witness :
  0 <= 0 <= 5 /\ 5 <= 10
  /\ app (@materialize scripted_db 45 9 0 5 col_lat col_lon [3; 1; 2])
         (@materialize scripted_db 45 9 5 10 col_lat col_lon [3; 1; 2])
     = @materialize scripted_db 45 9 0 10 col_lat col_lon [3; 1; 2].
Proof.
  split; [lia|]. split; [lia|].
  apply (@pages_compose scripted_db 45%R 9%R col_lat col_lon [3; 1; 2] 0 5 10);
    lia.
Defined.

(** A call that converges on its first count. *)
Lemma issued_queries_shape_witness :
  let rows := @materialize scripted_db 45 9 0 10 col_lat col_lon [3; 1; 2] in
  let issued := [QCount col_id "((geo>=16 AND geo<32))";
                 QFetch [col_lat; col_lon] "((geo>=16 AND geo<32))"] in
  @adaptive_geohash_nearby_search ring_geohash scripted_db 20
    (VFloat 45) (VFloat 9) (VInt 0) (VInt 10) 1%positive
    col_id col_lat col_lon col_geo "" (scripted [25] [3; 1; 2]) ∅
  = Some (Returned (Some rows)
            (add_coordinate_columns ∅ 1%positive col_lat col_lon)
            (scripted [] [3; 1; 2]) issued)
  /\ exists counts : list Query,
      Forall (fun q => is_count q = true) counts
      /\ (length counts <= 20)%nat
      /\ ((Some rows = None /\ issued = counts)
          \/ (exists rows' wc,
                 Some rows = Some rows'
                 /\ (1 <= length counts)%nat
                 /\ issued
                    = app counts
                        [QFetch (list_contents
                                   (add_coordinate_columns ∅ 1%positive
                                                           col_lat col_lon)
                                   1%positive) wc]
                 /\ col_lat ∈ list_contents
                                (add_coordinate_columns ∅ 1%positive
                                                        col_lat col_lon)
                                1%positive
                 /\ col_lon ∈ list_contents
                                (add_coordinate_columns ∅ 1%positive
                                                        col_lat col_lon)
                                1%positive)).
Proof.
  intros rows issued.
  assert (E : @adaptive_geohash_nearby_search ring_geohash scripted_db 20
                (VFloat 45) (VFloat 9) (VInt 0) (VInt 10) 1%positive
                col_id col_lat col_lon col_geo "" (scripted [25] [3; 1; 2]) ∅
              = Some (Returned (Some rows)
                        (add_coordinate_columns ∅ 1%positive col_lat col_lon)
                        (scripted [] [3; 1; 2]) issued))
    by reflexivity.
  split; [exact E|].
  exact (issued_queries_shape _ _ _ _ _ _ _ _ _ _ _ _ _ _ _ _ _ E).
Defined.

(** The count query of a call that converges on its first count. *)
Lemma count_queries_are_probes_witness :
  let rows := @materialize scripted_db 45 9 0 10 col_lat col_lon [3; 1; 2] in
  let issued := [QCount col_id "((geo>=16 AND geo<32))";
                 QFetch [col_lat; col_lon] "((geo>=16 AND geo<32))"] in
  @adaptive_geohash_nearby_search ring_geohash scripted_db 20
    (VFloat 45) (VFloat 9) (VInt 0) (VInt 10) 1%positive
    col_id col_lat col_lon col_geo "" (scripted [25] [3; 1; 2]) ∅
  = Some (Returned (Some rows)
            (add_coordinate_columns ∅ 1%positive col_lat col_lon)
            (scripted [] [3; 1; 2]) issued)
  /\ exists lat lon : R,
      as_number (VFloat 45) = Some lat /\ as_number (VFloat 9) = Some lon
      /\ Forall (@probe ring_geohash (@encode_uint64 ring_geohash lat lon)
                        col_id col_geo "")
                (List.filter is_count issued).
Proof.
  intros rows issued.
  assert (E : @adaptive_geohash_nearby_search ring_geohash scripted_db 20
                (VFloat 45) (VFloat 9) (VInt 0) (VInt 10) 1%positive
                col_id col_lat col_lon col_geo "" (scripted [25] [3; 1; 2]) ∅
              = Some (Returned (Some rows)
                        (add_coordinate_columns ∅ 1%positive col_lat col_lon)
                        (scripted [] [3; 1; 2]) issued))
    by reflexivity.
  split; [exact E|].
  exact (count_queries_are_probes _ _ _ _ _ _ _ _ _ _ _ _ _ _ _ _ _ E).
Defined.

(** A call on a database that always counts 25 rows. *)
Lemma fetch_predicate_was_counted_witness :
  let rows := @materialize (steady_db 25 [3; 1; 2]) 45 9 0 10 col_lat col_lon
                           [3; 1; 2] in
  let issued := [QCount col_id "((geo>=16 AND geo<32))";
                 QFetch [col_lat; col_lon] "((geo>=16 AND geo<32))"] in
  (forall (d : @DB (steady_db 25 [3; 1; 2])) (c : Column) (wc : string),
      0 <= fst (@count_query (steady_db 25 [3; 1; 2]) d c wc))
  /\ @adaptive_geohash_nearby_search ring_geohash (steady_db 25 [3; 1; 2]) 20
       (VFloat 45) (VFloat 9) (VInt 0) (VInt 10) 1%positive
       col_id col_lat col_lon col_geo "" tt ∅
     = Some (Returned (Some rows)
               (add_coordinate_columns ∅ 1%positive col_lat col_lon)
               tt issued)
  /\ exists (counts : list Query) (wc : string),
      issued
      = app counts
          [QFetch (list_contents
                     (add_coordinate_columns ∅ 1%positive col_lat col_lon)
                     1%positive) wc]
      /\ In (QCount col_id wc) counts.
Proof.
  intros rows issued.
  assert (Hnonneg : forall (d : @DB (steady_db 25 [3; 1; 2])) (c : Column)
                           (wc : string),
             0 <= fst (@count_query (steady_db 25 [3; 1; 2]) d c wc))
    by (intros; simpl; lia).
  assert (E : @adaptive_geohash_nearby_search ring_geohash
                (steady_db 25 [3; 1; 2]) 20
                (VFloat 45) (VFloat 9) (VInt 0) (VInt 10) 1%positive
                col_id col_lat col_lon col_geo "" tt ∅
              = Some (Returned (Some rows)
                        (add_coordinate_columns ∅ 1%positive col_lat col_lon)
                        tt issued))
    by reflexivity.
  split; [exact Hnonneg|]. split; [exact E|].
  exact (fetch_predicate_was_counted _ _ _ _ _ _ _ _ _ _ _ _ _ _ _ _ _
           Hnonneg E).
Defined.

(** A first count of 25 for a cap of 20. *)
Lemma dense_data_converges_at_once_witness :
  typed_args (VFloat 45) (VFloat 9) (VInt 0) (VInt 10) 45 9 0 10
  /\ @get_geohash_where_clause ring_geohash (@encode_uint64 ring_geohash 45 9)
       50 (name col_geo) <> ""
  /\ Z.max 10 20
     <= fst (@count_query scripted_db (scripted [25] [3; 1; 2]) col_id
               (@get_geohash_where_clause ring_geohash
                  (@encode_uint64 ring_geohash 45 9) 50 (name col_geo) ++ ""))
  /\ (1 <= 20)%nat
  /\ @adaptive_geohash_nearby_search ring_geohash scripted_db 20
       (VFloat 45) (VFloat 9) (VInt 0) (VInt 10) 1%positive
       col_id col_lat col_lon col_geo "" (scripted [25] [3; 1; 2]) ∅
     = Some (Returned
               (Some (@materialize scripted_db 45 9 0 10 col_lat col_lon
                        [3; 1; 2]))
               (add_coordinate_columns ∅ 1%positive col_lat col_lon)
               (scripted [] [3; 1; 2])
               [QCount col_id "((geo>=16 AND geo<32))";
                QFetch [col_lat; col_lon] "((geo>=16 AND geo<32))"]).
Proof.
  assert (Ht : typed_args (VFloat 45) (VFloat 9) (VInt 0) (VInt 10) 45 9 0 10)
    by (repeat split).
  assert (Hne : @get_geohash_where_clause ring_geohash
                  (@encode_uint64 ring_geohash 45 9) 50 (name col_geo) <> "")
    by (vm_compute; discriminate).
  assert (Hcap : Z.max 10 20
                 <= fst (@count_query scripted_db (scripted [25] [3; 1; 2])
                           col_id
                           (@get_geohash_where_clause ring_geohash
                              (@encode_uint64 ring_geohash 45 9) 50
                              (name col_geo) ++ "")))
    by (vm_compute; discriminate).
  assert (Hfuel : (1 <= 20)%nat) by lia.
  split; [exact Ht|]. split; [exact Hne|]. split; [exact Hcap|].
  split; [exact Hfuel|].
  exact (@dense_data_converges_at_once ring_geohash scripted_db 20
           (VFloat 45) (VFloat 9) (VInt 0) (VInt 10) 1%positive
           col_id col_lat col_lon col_geo "" (scripted [25] [3; 1; 2]) ∅
           45%R 9%R 0 10 Ht Hne Hcap Hfuel).
Defined.

(** A table of three rows that every probe counts, with a cap of 20. *)
Lemma steady_sparse_falls_back_witness :
  typed_args (VFloat 45) (VFloat 9) (VInt 0) (VInt 10) 45 9 0 10
  /\ (forall (d : @DB (steady_db 3 [1; 2; 3])) (c : Column) (wc : string),
         fst (@count_query (steady_db 3 [1; 2; 3]) d c wc) = 3)
  /\ 0 <= 3 < Z.max 10 20
  /\ (forall p : Z,
         0 <= p <= 50 ->
         @get_geohash_where_clause wide_geohash
           (@encode_uint64 wide_geohash 45 9) p (name col_geo) <> "")
  /\ (20 <= 20)%nat
  /\ exists (db' : @DB (steady_db 3 [1; 2; 3])) (issued : list Query),
      @adaptive_geohash_nearby_search wide_geohash (steady_db 3 [1; 2; 3]) 20
        (VFloat 45) (VFloat 9) (VInt 0) (VInt 10) 1%positive
        col_id col_lat col_lon col_geo "" tt ∅
      = Some (Returned None
                (add_coordinate_columns ∅ 1%positive col_lat col_lon)
                db' issued)
      /\ count_queries issued = 20%nat /\ fetch_queries issued = 0%nat.
Proof.
  assert (Ht : typed_args (VFloat 45) (VFloat 9) (VInt 0) (VInt 10) 45 9 0 10)
    by (repeat split).
  assert (Hconst : forall (d : @DB (steady_db 3 [1; 2; 3])) (c : Column)
                          (wc : string),
             fst (@count_query (steady_db 3 [1; 2; 3]) d c wc) = 3)
    by reflexivity.
  assert (Hk : 0 <= 3 < Z.max 10 20) by lia.
  assert (Hwide : forall p : Z,
             0 <= p <= 50 ->
             @get_geohash_where_clause wide_geohash
               (@encode_uint64 wide_geohash 45 9) p (name col_geo) <> "")
    by (intros p _; vm_compute; discriminate).
  assert (Hfuel : (20 <= 20)%nat) by lia.
  split; [exact Ht|]. split; [exact Hconst|]. split; [exact Hk|].
  split; [exact Hwide|]. split; [exact Hfuel|].
  exact (@steady_sparse_falls_back wide_geohash (steady_db 3 [1; 2; 3]) 20
           (VFloat 45) (VFloat 9) (VInt 0) (VInt 10) 1%positive
           col_id col_lat col_lon col_geo "" tt ∅ 45%R 9%R 0 10 3
           Ht Hconst Hk Hwide Hfuel).
Defined.

(** Nine counts of zero bring the precision to two bits, at which the
    expansion of [ring_geohash] is empty. *)
Lemma empty_expansion_at_any_turn_witness :
  let db := scripted [] [1; 2; 3] in
  let r := @iterate ring_geohash scripted_db
             (@encode_uint64 ring_geohash 45 9) (Z.max 10 20) col_id col_geo ""
             9 initial_state (@mkWorld scripted_db db []) in
  typed_args (VFloat 45) (VFloat 9) (VInt 0) (VInt 10) 45 9 0 10
  /\ running (fst r) = true
  /\ @get_geohash_where_clause ring_geohash (@encode_uint64 ring_geohash 45 9)
       (precision (fst r)) (name col_geo) = ""
  /\ (20 <= 20)%nat
  /\ @adaptive_geohash_nearby_search ring_geohash scripted_db 20
       (VFloat 45) (VFloat 9) (VInt 0) (VInt 10) 1%positive
       col_id col_lat col_lon col_geo "" db ∅
     = Some (Returned None
               (add_coordinate_columns ∅ 1%positive col_lat col_lon)
               (conn (snd r)) (queries (snd r)))
  /\ Forall (fun q => is_count q = true) (queries (snd r)).
Proof.
  intros db r.
  assert (Ht : typed_args (VFloat 45) (VFloat 9) (VInt 0) (VInt 10) 45 9 0 10)
    by (repeat split).
  assert (Hfuel : (20 <= 20)%nat) by lia.
  split; [exact Ht|]. split; [reflexivity|]. split; [reflexivity|].
  split; [exact Hfuel|].
  exact (@empty_expansion_at_any_turn ring_geohash scripted_db 20
           (VFloat 45) (VFloat 9) (VInt 0) (VInt 10) 1%positive
           col_id col_lat col_lon col_geo "" db ∅ 45%R 9%R 0 10 9%nat
           (fst r) (snd r) Ht (surjective_pairing r) eq_refl eq_refl Hfuel).
Defined.

(** Two calls in a row on a list that holds the identifier column only. *)
Lemma columns_added_once_witness :
  let h : gmap loc (list Column) := {[ 1%positive := [col_id] ]} in
  let h1 := add_coordinate_columns h 1%positive col_lat col_lon in
  @adaptive_geohash_nearby_search empty_geohash scripted_db 20
    (VFloat 45) (VFloat 9) (VInt 0) (VInt 10) 1%positive
    col_id col_lat col_lon col_geo "" (scripted [5] [1; 2]) h
  = Some (Returned None h1 (scripted [5] [1; 2]) [])
  /\ @adaptive_geohash_nearby_search empty_geohash scripted_db 20
       (VFloat 1) (VFloat 2) (VInt 10) (VInt 20) 1%positive
       col_id col_lat col_lon col_geo " AND x" (scripted [7] [1; 2]) h1
     = Some (Returned None
               (add_coordinate_columns h1 1%positive col_lat col_lon)
               (scripted [7] [1; 2]) [])
  /\ add_coordinate_columns h1 1%positive col_lat col_lon = h1.
Proof.
  intros h h1.
  assert (E1 : @adaptive_geohash_nearby_search empty_geohash scripted_db 20
                 (VFloat 45) (VFloat 9) (VInt 0) (VInt 10) 1%positive
                 col_id col_lat col_lon col_geo "" (scripted [5] [1; 2]) h
               = Some (Returned None h1 (scripted [5] [1; 2]) []))
    by reflexivity.
  assert (E2 : @adaptive_geohash_nearby_search empty_geohash scripted_db 20
                 (VFloat 1) (VFloat 2) (VInt 10) (VInt 20) 1%positive
                 col_id col_lat col_lon col_geo " AND x"
                 (scripted [7] [1; 2]) h1
               = Some (Returned None
                         (add_coordinate_columns h1 1%positive col_lat col_lon)
                         (scripted [7] [1; 2]) []))
    by reflexivity.
  split; [exact E1|]. split; [exact E2|].
  eapply columns_added_once; [exact E1|exact E2].
Defined.
